(** * dts-lsp: the property-type validator and the cross-file context resolver

    A shallow embedding of
    - [server/src/dtsTypes/types.ts] (the binding rule [PropertyNodeType]),
    - [server/src/context/property.ts] (the runtime [Property]),
    - [server/src/contextAware.ts] (the class [ContextAware]),
    - [server/src/dtsTypes/standardTypes/interruptsExtended.ts],
    and of the properties proved of them.

    JavaScript values are modelled as the code has them: arrays as lists,
    [undefined]/[null] as [None], objects compared with [===] through an
    explicit object reference, thrown exceptions as an abrupt completion. *)

From Stdlib Require Import ZArith Ascii String.
From stdpp Require Import base option list strings pretty gmap.

Set Default Proof Using "Type".
Set Warnings "-register-all,-notation-for-abbreviation".
Open Scope string_scope.
Open Scope list_scope.

(** ** Completions: a call either returns or throws

    A call that nests deeper than the call stack of the host allows
    throws a [RangeError].  [OutOfFuel] is for a loop: it stands for a
    [while] that has not left its body after the number of rounds it was
    given. *)

Inductive JsError : Type :=
| TypeError
| SyntaxError
| RangeError.

Inductive Completion (A : Type) : Type :=
| Normal (a : A)
| Throw (e : JsError)
| OutOfFuel.
Arguments Normal {A} a.
Arguments Throw {A} e.
Arguments OutOfFuel {A}.

Definition cbind {A B} (c : Completion A) (k : A → Completion B) : Completion B :=
  match c with
  | Normal a => k a
  | Throw e => Throw e
  | OutOfFuel => OutOfFuel
  end.

(** A string, [undefined] or [null] in a condition: only a string that is
    not empty is truthy. *)
Definition truthy (s : option string) : bool :=
  match s with
  | Some s => negb (bool_decide (s = ""))
  | None => false
  end.

(** ** The AST classes

    The classes of [server/src/ast] are taken as data: every class below
    is a record of exactly the members that the embedded code reads, under
    the names it reads them by. *)
Module Ast.

(** [LabelRef]: [&name]; [label?.value] is the referenced name. *)
Record LabelRef : Type := mkLabelRef { LabelRef_label : option string }.

(** [LabelRef.value], the referenced name. *)
Definition LabelRef_value (r : LabelRef) : option string := LabelRef_label r.

(** [NodeName]: [name], [value] and the result of [toString()]. *)
Record NodeName : Type := mkNodeName {
  NodeName_name : string;
  NodeName_value : string;
  NodeName_toString : string;
}.

Record PropertyName : Type := mkPropertyName { PropertyName_name : string }.

(** What [LabelAssign.parentNode] is, as far as the code looks at it:
    a [DtcChildNode] with its [path], a [DtcRefNode] with its
    [labelReferance] and [pathName], or some other element. *)
Inductive LabelParent : Type :=
| ParentDtcChildNode (path : option (list string))
| ParentDtcRefNode (labelReferance : option LabelRef) (pathName : option string)
| ParentOther.

(** [LabelAssign]: [name:]; [uid] stands for the identity of the object. *)
Record LabelAssign : Type := mkLabelAssign {
  LabelAssign_uid : nat;
  label : string;
  parentNode : LabelParent;
}.

(** One cell of a [<...>] array. *)
Inductive Cell : Type :=
| NumberValue (n : Z)
| LabelRefValue (r : LabelRef)
| CellExpression.

(** The [value] member of a [PropertyValue]. *)
Inductive AllValueType : Type :=
| StringValue (value : string)
| ArrayValues (values : list Cell)
| LabelRefV (r : LabelRef)
| NodePathRef (path : list string)
| ByteStringValue (bytes : list Z).

Record PropertyValue : Type := mkPropertyValue { PropertyValue_value : AllValueType }.

(** [PropertyValues.values] may hold [null] entries. *)
Record PropertyValues : Type := mkPropertyValues {
  PropertyValues_values : list (option PropertyValue);
}.

Inductive ASTBase : Type :=
| RootNodeAst (n : DtcRootNode)
| ChildNodeAst (n : DtcChildNode)
| RefNodeAst (n : DtcRefNode)
| PropertyAst (p : DtcProperty)
| DeleteNodeAst (d : DeleteNode)
| DeletePropertyAst (d : DeleteProperty)
| NodeNameAst (n : NodeName)
| PropertyNameAst (n : PropertyName)
| LabelAssignAst (l : LabelAssign)
| LabelRefAst (r : LabelRef)
| PropertyValuesAst (v : PropertyValues)
| PropertyValueAst (v : PropertyValue)
| ValueAst (v : AllValueType)
| CellAst (c : Cell)
| KeywordAst
with DtcRootNode : Type :=
| mkDtcRootNode (children : list ASTBase)
with DtcChildNode : Type :=
| mkDtcChildNode (name : option NodeName) (path : option (list string))
    (labels : list LabelAssign) (children : list ASTBase)
with DtcRefNode : Type :=
| mkDtcRefNode (labelReferance : option LabelRef) (pathName : option string)
    (labels : list LabelAssign) (children : list ASTBase)
with DtcProperty : Type :=
| mkDtcProperty (propertyName : option PropertyName) (values : option PropertyValues)
    (labels : list LabelAssign) (children : list ASTBase)
with DeleteNode : Type :=
| mkDeleteNode (nodeNameOrRef : option (NodeName + LabelRef))
    (parentNode_parentNode : bool) (children : list ASTBase)
with DeleteProperty : Type :=
| mkDeleteProperty (propertyName : option PropertyName) (children : list ASTBase).

Definition DtcRootNode_children (n : DtcRootNode) : list ASTBase :=
  match n with mkDtcRootNode c => c end.

Definition DtcChildNode_name (n : DtcChildNode) : option NodeName :=
  match n with mkDtcChildNode nm _ _ _ => nm end.
Definition DtcChildNode_path (n : DtcChildNode) : option (list string) :=
  match n with mkDtcChildNode _ p _ _ => p end.
Definition DtcChildNode_labels (n : DtcChildNode) : list LabelAssign :=
  match n with mkDtcChildNode _ _ l _ => l end.
Definition DtcChildNode_children (n : DtcChildNode) : list ASTBase :=
  match n with mkDtcChildNode _ _ _ c => c end.

Definition DtcRefNode_labelReferance (n : DtcRefNode) : option LabelRef :=
  match n with mkDtcRefNode r _ _ _ => r end.
Definition DtcRefNode_pathName (n : DtcRefNode) : option string :=
  match n with mkDtcRefNode _ p _ _ => p end.
Definition DtcRefNode_labels (n : DtcRefNode) : list LabelAssign :=
  match n with mkDtcRefNode _ _ l _ => l end.
Definition DtcRefNode_children (n : DtcRefNode) : list ASTBase :=
  match n with mkDtcRefNode _ _ _ c => c end.

Definition DtcProperty_propertyName (p : DtcProperty) : option PropertyName :=
  match p with mkDtcProperty n _ _ _ => n end.
Definition DtcProperty_values (p : DtcProperty) : option PropertyValues :=
  match p with mkDtcProperty _ v _ _ => v end.
Definition DtcProperty_labels (p : DtcProperty) : list LabelAssign :=
  match p with mkDtcProperty _ _ l _ => l end.
Definition DtcProperty_children (p : DtcProperty) : list ASTBase :=
  match p with mkDtcProperty _ _ _ c => c end.

Definition DeleteNode_nodeNameOrRef (d : DeleteNode) : option (NodeName + LabelRef) :=
  match d with mkDeleteNode n _ _ => n end.
Definition DeleteNode_parentNode_parentNode (d : DeleteNode) : bool :=
  match d with mkDeleteNode _ g _ => g end.
Definition DeleteNode_children (d : DeleteNode) : list ASTBase :=
  match d with mkDeleteNode _ _ c => c end.

Definition DeleteProperty_propertyName (d : DeleteProperty) : option PropertyName :=
  match d with mkDeleteProperty n _ => n end.
Definition DeleteProperty_children (d : DeleteProperty) : list ASTBase :=
  match d with mkDeleteProperty _ c => c end.

End Ast.
Import Ast.

(** ** Diagnostics *)

Inductive DiagnosticSeverity : Type := Error | Warning | Information | Hint.
Inductive DiagnosticTag : Type := Unnecessary | Deprecated.

(** [Issue<T>] of [server/src/types.ts]; [astElement] is optional because
    the code may pass an out-of-range array read. *)
Record Issue (T : Type) : Type := mkIssue {
  issues : list T;
  astElement : option ASTBase;
  severity : DiagnosticSeverity;
  linkedTo : list ASTBase;
  tags : option (list DiagnosticTag);
  templateStrings : list string;
}.
Arguments mkIssue {T}.
Arguments issues {T}.
Arguments astElement {T}.
Arguments severity {T}.
Arguments linkedTo {T}.
Arguments tags {T}.
Arguments templateStrings {T}.

(** [genIssue] with every argument given (contextAware.ts l.302-316; the
    helper of the same name imported by types.ts has the same shape). *)
Definition genIssue {T} (issue : list T) (slxBase : option ASTBase)
    (severity : DiagnosticSeverity) (linkedTo : list ASTBase)
    (tags : option (list DiagnosticTag)) (templateStrings : list string) : Issue T :=
  {| issues := issue; astElement := slxBase; severity := severity;
     linkedTo := linkedTo; tags := tags; templateStrings := templateStrings |}.

(** [genIssue(issue, slxBase)]: the defaults are [Error], [[]], [undefined], [[]]. *)
Definition genIssue2 {T} (issue : list T) (slxBase : option ASTBase) : Issue T :=
  genIssue issue slxBase Error [] None [].

(** ** The runtime [Property] (server/src/context/property.ts) *)

(** [oid] stands for the identity of the JavaScript object, which [===]
    compares; [replaces] is set by [Node.addProperty]. *)
Inductive Property : Type :=
| mkProperty (oid : nat) (ast : DtcProperty) (replaces : option Property).

Definition Property_oid (p : Property) : nat :=
  match p with mkProperty o _ _ => o end.
Definition ast (p : Property) : DtcProperty :=
  match p with mkProperty _ a _ => a end.
Definition replaces (p : Property) : option Property :=
  match p with mkProperty _ _ r => r end.

(** [get name()], l.54-56. *)
Definition Property_name (p : Property) : string :=
  match DtcProperty_propertyName (ast p) with
  | Some n => PropertyName_name n
  | None => "[UNSET]"
  end.

Inductive ContextIssues : Type :=
| DUPLICATE_PROPERTY_NAME
| PROPERTY_DOES_NOT_EXIST
| DUPLICATE_NODE_NAME
| NODE_DOES_NOT_EXIST
| UNABLE_TO_RESOLVE_CHILD_NODE
| LABEL_ALREADY_IN_USE.

(** [get replacedIssues()], l.111-127: the issues of the replaced
    definition first, then one hint on the replaced definition itself. *)
Fixpoint replacedIssues (p : Property) : list (Issue ContextIssues) :=
  match p with
  | mkProperty _ this_ast None => []
  | mkProperty _ this_ast (Some r) =>
      replacedIssues r ++
      [ {| issues := [DUPLICATE_PROPERTY_NAME];
           severity := Hint;
           astElement := Some (PropertyAst (ast r));
           linkedTo := [PropertyAst this_ast];
           tags := Some [Unnecessary];
           templateStrings := [Property_name p] |} ]
  end.

(** [get issues()], l.107-109. *)
Definition Property_issues (p : Property) : list (Issue ContextIssues) :=
  replacedIssues p.

(** [get allReplaced()], l.129-131. *)
Fixpoint allReplaced (p : Property) : list Property :=
  match p with
  | mkProperty _ _ None => []
  | mkProperty _ _ (Some r) => r :: allReplaced r
  end.

(** Induction along the [replaces] chain. *)
Fixpoint Property_chain_ind (P : Property → Prop)
    (Hlast : ∀ oid a, P (mkProperty oid a None))
    (Hstep : ∀ oid a r, P r → P (mkProperty oid a (Some r)))
    (p : Property) : P p :=
  match p with
  | mkProperty oid a None => Hlast oid a
  | mkProperty oid a (Some r) => Hstep oid a r (Property_chain_ind P Hlast Hstep r)
  end.

(** ** The runtime [Node] (server/src/context/node.ts)

    Only the uses of the class are embedded.  Runtime nodes are mutable
    objects that the context builder reaches through several references at
    once, so they live in a store and are named by a reference. *)

Definition NodeRef := nat.

(** Modelled from the spec: the members of the missing class [Node] (3.4
    "Node: holds name, parent, children (insertion-ordered), properties
    (insertion-ordered), definitions, referencedBy"), under the names the
    code uses for them; [roots] and [referances] are the two lists that
    contextAware.ts pushes to on the root node. *)
Record Node : Type := mkNode {
  Node_name : string;
  Node_parent : option NodeRef;
  Node_nodes : list NodeRef;
  Node_properties : list Property;
  definitons : list DtcChildNode;
  referancesBy : list DtcRefNode;
  roots : list DtcRootNode;
  referances : list DtcRefNode;
}.

(** Modelled from the spec: [Node.getProperty(name)] of the missing class
    [Node], the property of that name among [properties]. *)
Definition getProperty (n : Node) (name : string) : option Property :=
  List.find (λ p, bool_decide (Property_name p = name)) (Node_properties n).

(** ** The binding rules (server/src/dtsTypes/types.ts) *)
Module Types.

Inductive PropetyType : Type :=
| EMPTY
| U32
| U64
| STRING
| PROP_ENCODED_ARRAY
| STRINGLIST
| BYTESTRING
| UNKNOWN.

#[export] Instance PropetyType_eq_dec : EqDecision PropetyType.
Proof. solve_decision. Defined.

(** ["required" | "ommited" | "optional"], l.33. *)
Inductive RequirementStatus : Type := st_required | st_ommited | st_optional.

(** [StandardTypeIssue] of [server/src/types.ts]: the members this code
    and interruptsExtended.ts name. *)
Inductive StandardTypeIssue : Type :=
| REQUIRED
| OMITTED
| EXPECTED_EMPTY
| EXPECTED_STRING
| EXPECTED_STRINGLIST
| EXPECTED_U32
| EXPECTED_U64
| EXPECTED_PROP_ENCODED_ARRAY
| EXPECTED_ONE
| EXPECTED_COMPOSITE_LENGTH
| EXPECTED_ENUM
| IGNORED
| PROPERTY_REQUIRES_OTHER_PROPERTY_IN_NODE
| INTERRUPTS_PARENT_NODE_NOT_FOUND
| INTERRUPTS_VALUE_CELL_MISS_MATCH.

Record TypeConfig : Type := mkTypeConfig { types : list PropetyType }.

(** [Runtime] of [server/src/context/runtime.ts]: the one method the
    validator calls. *)
Record Runtime : Type := mkRuntime {
  getOrderedNodeAst : Node → list ASTBase;
}.

(** [propertyValueToPropetyType], l.319-344. *)
Definition propertyValueToPropetyType (value : option PropertyValue) : PropetyType :=
  match value with
  | None => UNKNOWN
  | Some v =>
      match PropertyValue_value v with
      | StringValue _ => STRING
      | ArrayValues cells =>
          if bool_decide (length cells = 1) then U32
          else if bool_decide (length cells = 2) then U64
          else PROP_ENCODED_ARRAY
      | LabelRefV _ | NodePathRef _ => U32
      | ByteStringValue _ => BYTESTRING
      end
  end.

(** [propertyValuesToPropetyType], l.313-317. *)
Definition propertyValuesToPropetyType (property : Property) : list PropetyType :=
  match DtcProperty_values (ast property) with
  | Some vs => map propertyValueToPropetyType (PropertyValues_values vs)
  | None => [EMPTY]
  end.

(** The local [typeIsValid] of [checkType], l.120-125. *)
Definition typeIsValid (expected : list PropetyType) (type : PropetyType) : bool :=
  existsb (λ tt, bool_decide (tt = type)) expected
  || (existsb (λ tt, bool_decide (tt = STRINGLIST)) expected
      && (bool_decide (type = STRING) || bool_decide (type = STRINGLIST)))
  || (existsb (λ tt, bool_decide (tt = PROP_ENCODED_ARRAY)) expected
      && (bool_decide (type = U32) || bool_decide (type = U64))).

(** The [switch] of [checkType], l.130-149: what one expected type pushes. *)
Definition expectedIssue (tt : PropetyType) : list StandardTypeIssue :=
  match tt with
  | EMPTY => [EXPECTED_EMPTY]
  | STRING => [EXPECTED_STRING]
  | STRINGLIST => [EXPECTED_STRINGLIST]
  | U32 => [EXPECTED_U32]
  | U64 => [EXPECTED_U64]
  | PROP_ENCODED_ARRAY => [EXPECTED_PROP_ENCODED_ARRAY]
  | BYTESTRING | UNKNOWN => []
  end.

(** [checkType], l.113-165, as the list of issues it pushes. *)
Definition checkType (property : Property) (expected : list PropetyType)
    (type : PropetyType) (ast0 : option ASTBase) : list (Issue StandardTypeIssue) :=
  let ast1 := default (PropertyAst (ast property)) ast0 in
  if typeIsValid expected type then []
  else
    let issue := flat_map expectedIssue expected in
    if bool_decide (length issue = 0) then []
    else [genIssue issue (Some ast1) Error [] (Some []) [Property_name property]].

(** The double quote, for the pattern of l.243. *)
Definition dquote : string := String (Ascii.ascii_of_nat 34) EmptyString.

(** The [value] member that l.243 reads from the first value after the
    cast [as StringValue]: the text of a [StringValue], the name of a
    [LabelRef]; the other value classes carry no such member. *)
Definition AllValueType_value (v : AllValueType) : option string :=
  match v with
  | StringValue s => Some s
  | LabelRefV r => LabelRef_value r
  | ArrayValues _ | NodePathRef _ | ByteStringValue _ => None
  end.

Section Validator.

(** The regular expressions of the host: [new RegExp(source)] may
    throw a [SyntaxError]; [text.match(re)] tells whether it matched. *)
Context {RegExp : Type}.
Variable RegExp_new : string → option RegExp.
Variable String_match : string → RegExp → bool.

(** [PropertyNodeType<T>], l.36-66, after its constructor has run:
    [required] and [values] are functions; an enumerated value is held
    as the text that the template literal of l.243 makes of it. *)
Record PropertyNodeType : Type := mkPropertyNodeType {
  name : string + RegExp;
  type : list TypeConfig;
  required : Node → RequirementStatus;
  def : option string;
  values : Property → list string;
  additionalTypeCheck : option (Property → Completion (list (Issue StandardTypeIssue)));
  list_flag : bool;
}.

(** The constructor, l.42-66: a constant [required] and a constant
    list of [values] become functions, and the default value joins the
    enumerated values when it is not among them; [list] starts out
    [false]. *)
Definition PropertyNodeType_new (name : string + RegExp) (type : list TypeConfig)
    (required : RequirementStatus + (Node → RequirementStatus)) (def : option string)
    (values : list string + (Property → list string))
    (additionalTypeCheck :
       option (Property → Completion (list (Issue StandardTypeIssue))))
    : PropertyNodeType :=
  {| name := name;
     type := type;
     required := match required with
                 | inl status => λ _, status
                 | inr f => f
                 end;
     def := def;
     values := match values with
               | inl vs =>
                   λ _, match def with
                        | Some d =>
                            if truthy def && negb (existsb (λ v, bool_decide (v = d)) vs)
                            then d :: vs else vs
                        | None => vs
                        end
               | inr f => f
               end;
     additionalTypeCheck := additionalTypeCheck;
     list_flag := false |}.

(** [getNameMatch], l.68-72. *)
Definition getNameMatch (this : PropertyNodeType) (n : string) : bool :=
  match name this with
  | inl s => bool_decide (s = n)
  | inr re => String_match n re
  end.

(** [property.ast.values?.values[i]], [undefined] and [null] alike. *)
Definition valueAt (property : Property) (i : nat) : option PropertyValue :=
  vs ← DtcProperty_values (ast property);
  mjoin (PropertyValues_values vs !! i).

(** [property.ast.values?.values[0]?.value]. *)
Definition firstValue (property : Property) : option AllValueType :=
  PropertyValue_value <$> valueAt property 0.

(** [property.ast.values ?? property.ast]. *)
Definition valuesOrAst (property : Property) : ASTBase :=
  match DtcProperty_values (ast property) with
  | Some vs => PropertyValuesAst vs
  | None => PropertyAst (ast property)
  end.

(** The test of l.242-244 over the enumerated values: [some] stops at
    the first match; reading [currentValue.value.match] throws when
    there is no string to call it on. *)
Fixpoint someEnumMatches (currentValue : option AllValueType) (vs : list string)
    : Completion bool :=
  match vs with
  | [] => Normal false
  | v :: vs' =>
      match currentValue ≫= AllValueType_value with
      | None => Throw TypeError
      | Some text =>
          match RegExp_new ("^[" +:+ dquote +:+ "']" +:+ v +:+ "[" +:+ dquote +:+ "']$") with
          | None => Throw SyntaxError
          | Some re =>
              if String_match text re then Normal true
              else someEnumMatches currentValue vs'
          end
      end
  end.

(** [a.map(v => `'${v}'`).join(" or ")], l.254-256. *)
Fixpoint joinQuoted (vs : list string) : string :=
  match vs with
  | [] => ""
  | [v] => "'" +:+ v +:+ "'"
  | v :: vs' => "'" +:+ v +:+ "' or " +:+ joinQuoted vs'
  end.

(** The composite branch, l.167-192; [type0] is [type[0]]. *)
Definition validateComposite (this : PropertyNodeType) (type0 : TypeConfig)
    (propertyName : string) (property : Property) (propTypes : list PropetyType)
    : list (Issue StandardTypeIssue) :=
  if negb (list_flag this) && negb (bool_decide (length (type this) = length propTypes))
  then
    [genIssue [EXPECTED_COMPOSITE_LENGTH] (Some (valuesOrAst property))
       Error [] (Some []) [propertyName; pretty (length (type this))]]
  else
    concat (imap (λ i t,
      if forallb (λ tt, negb (bool_decide (tt = t))) (types type0)
      then [genIssue2 [EXPECTED_STRINGLIST]
              (Some (default (PropertyAst (ast property))
                       (PropertyValueAst <$> valueAt property i)))]
      else []) propTypes).

(** The type checks of the single-slot branch, l.194-230. *)
Definition validateSingle (this : PropertyNodeType) (type0 : TypeConfig)
    (property : Property) (propTypes : list PropetyType)
    : list (Issue StandardTypeIssue) :=
  let first := ValueAst <$> firstValue property in
  if existsb (λ tt, bool_decide (tt = STRINGLIST)) (types type0) then
    flat_map (λ t, checkType property [STRINGLIST] t first) propTypes
  else if list_flag this then
    flat_map (λ t, checkType property (types type0) t first) propTypes
  else if bool_decide (1 < length propTypes)
          && existsb (λ tt, negb (bool_decide (tt = EMPTY))) (types type0) then
    [genIssue [EXPECTED_ONE] (Some (valuesOrAst property)) Error [] (Some [])
       [Property_name property]]
  else
    match propTypes with
    | [t] => checkType property (types type0) t first
    | _ => []
    end.

(** "We have the right type", l.233-262. *)
Definition validateEnum (this : PropertyNodeType) (type0 : TypeConfig)
    (property : Property) : Completion (list (Issue StandardTypeIssue)) :=
  cbind (match additionalTypeCheck this with
         | Some check => check property
         | None => Normal []
         end) (λ issues0,
  if negb (bool_decide (length (values this property) = 0))
     && existsb (λ tt, bool_decide (tt = STRING)) (types type0)
  then
    cbind (someEnumMatches (firstValue property) (values this property)) (λ found,
      if found then Normal issues0
      else Normal (issues0 ++
        [genIssue [EXPECTED_ENUM]
           (Some (default (PropertyAst (ast property)) (ValueAst <$> firstValue property)))
           Error [] (Some []) [joinQuoted (values this property)]]))
  else Normal issues0).

(** [validateProperty], l.74-266. *)
Definition validateProperty (this : PropertyNodeType) (runtime : Runtime)
    (node : Node) (propertyName : string) (property : option Property)
    : Completion (list (Issue StandardTypeIssue)) :=
  let req := required this node in
  match property with
  | None =>
      match req with
      | st_required =>
          let orderdTree := getOrderedNodeAst runtime node in
          Normal [genIssue [REQUIRED] (head orderdTree) Error (tail orderdTree)
                    (Some []) [propertyName]]
      | _ => Normal []
      end
  | Some property =>
      match req with
      | st_ommited =>
          Normal [genIssue [OMITTED] (Some (PropertyAst (ast property))) Error []
                    (Some []) [propertyName]]
      | _ =>
          let propTypes := propertyValuesToPropetyType property in
          match type this with
          | type0 :: _ :: _ =>
              (* this.type.length > 1 *)
              Normal (validateComposite this type0 propertyName property propTypes)
          | [type0] =>
              let issues := validateSingle this type0 property propTypes in
              if bool_decide (length issues = 0)
              then validateEnum this type0 property
              else Normal issues
          | [] =>
              (* this.type[0].types on an empty array *)
              Throw TypeError
          end
      end
  end.

(** [Array.prototype.flatMap] over calls that may throw. *)
Fixpoint flatMapC {A B} (f : A → Completion (list B)) (l : list A)
    : Completion (list B) :=
  match l with
  | [] => Normal []
  | a :: l' => cbind (f a) (λ bs, cbind (flatMapC f l') (λ rest, Normal (bs ++ rest)%list))
  end.

(** [validate], l.268-278. *)
Definition validate (this : PropertyNodeType) (runtime : Runtime) (node : Node)
    : Completion (list (Issue StandardTypeIssue)) :=
  match name this with
  | inl n => validateProperty this runtime node n (getProperty node n)
  | inr _ =>
      let properties :=
        filter (λ p, getNameMatch this (Property_name p) = true) (Node_properties node) in
      flatMapC (λ p, validateProperty this runtime node (Property_name p) (Some p))
        properties
  end.

(** [NodeType], l.346-356: the bindings of a node, and [getIssue]. *)
Record NodeType : Type := mkNodeType {
  NodeType_node : Node;
  NodeType_properties : list PropertyNodeType;
}.

Definition getIssue (this : NodeType) (runtime : Runtime)
    : Completion (list (Issue StandardTypeIssue)) :=
  flatMapC (λ p, validate p runtime (NodeType_node this)) (NodeType_properties this).

End Validator.

End Types.

(** ** The context builder (server/src/contextAware.ts) *)
Module Resolver.

(** [astMap] of [server/src/resultCache.ts] holds the cached parses by
    URI; of an entry the code reads [parser.rootDocument], a
    [DtcBaseNode] of which it reads the [children]. *)
Record DtcBaseNode : Type := mkDtcBaseNode { DtcBaseNode_children : list ASTBase }.
Record CachedParse : Type := mkCachedParse { parser_rootDocument : DtcBaseNode }.

(** The object a label belongs to: [Property | Node | null]. *)
Inductive Owner : Type :=
| OwnerNode (r : NodeRef)
| OwnerProperty (p : Property).

(** [===] on owners compares object identities. *)
Definition Owner_same (a b : Owner) : bool :=
  match a, b with
  | OwnerNode r1, OwnerNode r2 => bool_decide (r1 = r2)
  | OwnerProperty p1, OwnerProperty p2 => bool_decide (Property_oid p1 = Property_oid p2)
  | _, _ => false
  end.

Record LabelItem : Type := mkLabelItem {
  item_label : LabelAssign;
  item_owner : option Owner;
}.

(** The instance: [_issues], [rootNode], and the store that the node
    references point into, with the next free node reference and the next
    free object identity for [new Property]. *)
Record ContextAware : Type := mkContextAware {
  _issues : list (Issue ContextIssues);
  rootNode : NodeRef;
  heap : gmap NodeRef Node;
  nextRef : NodeRef;
  nextOid : nat;
}.

Definition set_issues (f : list (Issue ContextIssues) → list (Issue ContextIssues))
    (this : ContextAware) : ContextAware :=
  {| _issues := f (_issues this); rootNode := rootNode this; heap := heap this;
     nextRef := nextRef this; nextOid := nextOid this |}.

Definition set_heap (f : gmap NodeRef Node → gmap NodeRef Node)
    (this : ContextAware) : ContextAware :=
  {| _issues := _issues this; rootNode := rootNode this; heap := f (heap this);
     nextRef := nextRef this; nextOid := nextOid this |}.

(** *** The methods of [Node] that the builder calls *)

Definition emptyNode (name : string) (parent : option NodeRef) : Node :=
  {| Node_name := name; Node_parent := parent; Node_nodes := []; Node_properties := [];
     definitons := []; referancesBy := []; roots := []; referances := [] |}.

Definition Node_set_nodes (f : list NodeRef → list NodeRef) (n : Node) : Node :=
  {| Node_name := Node_name n; Node_parent := Node_parent n; Node_nodes := f (Node_nodes n);
     Node_properties := Node_properties n; definitons := definitons n;
     referancesBy := referancesBy n; roots := roots n; referances := referances n |}.

Definition Node_set_properties (f : list Property → list Property) (n : Node) : Node :=
  {| Node_name := Node_name n; Node_parent := Node_parent n; Node_nodes := Node_nodes n;
     Node_properties := f (Node_properties n); definitons := definitons n;
     referancesBy := referancesBy n; roots := roots n; referances := referances n |}.

Definition Node_push_definiton (d : DtcChildNode) (n : Node) : Node :=
  {| Node_name := Node_name n; Node_parent := Node_parent n; Node_nodes := Node_nodes n;
     Node_properties := Node_properties n; definitons := definitons n ++ [d];
     referancesBy := referancesBy n; roots := roots n; referances := referances n |}.

Definition Node_push_referancesBy (d : DtcRefNode) (n : Node) : Node :=
  {| Node_name := Node_name n; Node_parent := Node_parent n; Node_nodes := Node_nodes n;
     Node_properties := Node_properties n; definitons := definitons n;
     referancesBy := referancesBy n ++ [d]; roots := roots n; referances := referances n |}.

Definition Node_push_root (d : DtcRootNode) (n : Node) : Node :=
  {| Node_name := Node_name n; Node_parent := Node_parent n; Node_nodes := Node_nodes n;
     Node_properties := Node_properties n; definitons := definitons n;
     referancesBy := referancesBy n; roots := roots n ++ [d]; referances := referances n |}.

Definition Node_push_referance (d : DtcRefNode) (n : Node) : Node :=
  {| Node_name := Node_name n; Node_parent := Node_parent n; Node_nodes := Node_nodes n;
     Node_properties := Node_properties n; definitons := definitons n;
     referancesBy := referancesBy n; roots := roots n; referances := referances n ++ [d] |}.

(** Modelled from the spec: the constructor [new Node(name, parent?)] of
    the missing class [Node] (4.4.1 "create a fresh root Node", 4.4.2
    "otherwise create it" under the parent): a node without children,
    properties or definitions, appended to the children of its parent. *)
Definition Node_new (name : string) (parent : option NodeRef) (this : ContextAware)
    : NodeRef * ContextAware :=
  let r := nextRef this in
  let h1 := <[r := emptyNode name parent]> (heap this) in
  let h2 :=
    match parent with
    | Some p => alter (Node_set_nodes (λ ns, ns ++ [r])) p h1
    | None => h1
    end in
  (r, {| _issues := _issues this; rootNode := rootNode this; heap := h2;
         nextRef := S r; nextOid := nextOid this |}).

Definition childNamed (h : gmap NodeRef Node) (n : Node) (name : string) : option NodeRef :=
  List.find (λ c, match h !! c with
                  | Some cn => bool_decide (Node_name cn = name)
                  | None => false
                  end) (Node_nodes n).

(** Modelled from the spec: [Node.getChild(path)] of the missing class
    [Node] (3.4 "logical node identified by its path, ordered sequence of
    name segments from /"): the first segment names this node, the
    following ones its descendants. *)
Fixpoint getChild (h : gmap NodeRef Node) (r : NodeRef) (path : list string)
    : option NodeRef :=
  match path with
  | [] => None
  | seg :: rest =>
      n ← h !! r;
      if bool_decide (Node_name n = seg) then
        match rest with
        | [] => Some r
        | next :: _ => c ← childNamed h n next; getChild h c rest
        end
      else None
  end.

(** Modelled from the spec: [Node.labels] of the missing class [Node]
    (3.4 "labels: union of all LabelAssign targeting this node"), the
    labels of its definitions and of the reference nodes merged into it. *)
Definition Node_labels (n : Node) : list LabelAssign :=
  flat_map DtcChildNode_labels (definitons n) ++ flat_map DtcRefNode_labels (referancesBy n).

(** Modelled from the spec: [Node.hasNode(name)] and
    [Node.deleteNode(name, by)] of the missing class [Node] (4.4.2
    "otherwise detach subtree; it ceases to exist in the tree"). *)
Definition hasNode (h : gmap NodeRef Node) (r : NodeRef) (name : string) : bool :=
  match h !! r with
  | Some n => bool_decide (is_Some (childNamed h n name))
  | None => false
  end.

Definition deleteNode (r : NodeRef) (name : string) (h : gmap NodeRef Node)
    : gmap NodeRef Node :=
  alter (Node_set_nodes (List.filter (λ c,
    match h !! c with
    | Some cn => negb (bool_decide (Node_name cn = name))
    | None => true
    end))) r h.

(** Modelled from the spec: [Node.hasProperty(name)] and
    [Node.deleteProperty(name, by)] of the missing class [Node] (4.4.2
    "DeleteProperty name: present: remove"). *)
Definition hasProperty (h : gmap NodeRef Node) (r : NodeRef) (name : string) : bool :=
  match h !! r with
  | Some n => bool_decide (is_Some (getProperty n name))
  | None => false
  end.

Definition deleteProperty (r : NodeRef) (name : string) (h : gmap NodeRef Node)
    : gmap NodeRef Node :=
  alter (Node_set_properties
           (List.filter (λ p, negb (bool_decide (Property_name p = name))))) r h.

(** Modelled from the spec: [Node.addProperty(property)] of the missing
    class [Node] (4.4.2 "append a Property to the current Node; if a
    property with that name already exists, link the new one's replaces
    to the previous").  The node keeps one [Property] per name, the
    last-wins one (3.4), which takes the place of the previous at the
    end of the list. *)
Definition addPropertyTo (property : Property) (n : Node) : Node :=
  match getProperty n (Property_name property) with
  | Some previous =>
      Node_set_properties (λ ps,
        List.filter (λ p, negb (bool_decide (Property_name p = Property_name property))) ps
        ++ [mkProperty (Property_oid property) (ast property) (Some previous)]) n
  | None => Node_set_properties (λ ps, ps ++ [property]) n
  end.

Definition addProperty (r : NodeRef) (property : Property) (h : gmap NodeRef Node)
    : gmap NodeRef Node :=
  alter (addPropertyTo property) r h.

(** [ASTBase.children] and [ASTBase.allDescendants] of the missing base
    class: the elements below an element, in document order. *)
Definition ASTBase_children (e : ASTBase) : list ASTBase :=
  match e with
  | RootNodeAst n => DtcRootNode_children n
  | ChildNodeAst n => DtcChildNode_children n
  | RefNodeAst n => DtcRefNode_children n
  | PropertyAst p => DtcProperty_children p
  | DeleteNodeAst d => DeleteNode_children d
  | DeletePropertyAst d => DeleteProperty_children d
  | _ => []
  end.

Fixpoint allDescendants (e : ASTBase) : list ASTBase :=
  let below := fix below (l : list ASTBase) : list ASTBase :=
    match l with
    | [] => []
    | c :: l' => c :: allDescendants c ++ below l'
    end in
  match e with
  | RootNodeAst (mkDtcRootNode ch) => below ch
  | ChildNodeAst (mkDtcChildNode _ _ _ ch) => below ch
  | RefNodeAst (mkDtcRefNode _ _ _ ch) => below ch
  | PropertyAst (mkDtcProperty _ _ _ ch) => below ch
  | DeleteNodeAst (mkDeleteNode _ _ ch) => below ch
  | DeletePropertyAst (mkDeleteProperty _ ch) => below ch
  | _ => []
  end.

(** [Property.labels], property.ts l.58-60. *)
Definition Property_labels (p : Property) : list LabelAssign :=
  omap (λ c, match c with LabelAssignAst l => Some l | _ => None end)
       (allDescendants (PropertyAst (ast p))).

(** [Property.labelsMapped], property.ts l.97-105. *)
Definition Property_labelsMapped (p : Property) : list LabelItem :=
  map (λ l,
    {| item_label := l;
       item_owner :=
         if existsb (λ ll, bool_decide (LabelAssign_uid ll = LabelAssign_uid l))
              (DtcProperty_labels (ast p))
         then Some (OwnerProperty p) else None |}) (Property_labels p).

(** The nodes below a node, itself first; a tree of the store is never
    deeper than the store is large. *)
Fixpoint descendantsOf (fuel : nat) (h : gmap NodeRef Node) (r : NodeRef)
    : list (NodeRef * Node) :=
  match fuel with
  | 0 => []
  | S fuel' =>
      match h !! r with
      | None => []
      | Some n => (r, n) :: flat_map (descendantsOf fuel' h) (Node_nodes n)
      end
  end.

Definition allNodes (h : gmap NodeRef Node) (r : NodeRef) : list (NodeRef * Node) :=
  descendantsOf (S (size h)) h r.

(** Modelled from the spec: [Node.allDescendantsLabels] of the missing
    class [Node] (4.4.4 "label pool"; deleted nodes do not contribute):
    the labels of every node of the tree and of its properties.  The
    pool is read off the tree (3.4: children and properties in insertion
    order), node by node from the root: the labels of a node, then those
    of its properties, then those of its children.  The theorems on
    [resolvePath] and on the label pool speak of the order of this list,
    and hold whatever that order is. *)
Definition allDescendantsLabels (h : gmap NodeRef Node) (r : NodeRef) : list LabelAssign :=
  flat_map (λ rn, Node_labels rn.2 ++ flat_map Property_labels (Node_properties rn.2))
           (allNodes h r).

(** Modelled from the spec: [Node.allDescendantsLabelsMapped] of the
    missing class [Node]: the same labels in the same order, each with its
    owner. *)
Definition allDescendantsLabelsMapped (h : gmap NodeRef Node) (r : NodeRef)
    : list LabelItem :=
  flat_map (λ rn,
      map (λ l, {| item_label := l; item_owner := Some (OwnerNode rn.1) |}) (Node_labels rn.2)
      ++ flat_map Property_labelsMapped (Node_properties rn.2))
    (allNodes h r).

(** Modelled from the spec: [Node.issues] of the missing class [Node]
    (4.4.2 "earlier definitions gain a DUPLICATE_PROPERTY_NAME hint"): the
    issues of the properties of every node of the tree. *)
Definition Node_issues (h : gmap NodeRef Node) (r : NodeRef) : list (Issue ContextIssues) :=
  flat_map (λ rn, flat_map Property_issues (Node_properties rn.2)) (allNodes h r).

(** *** [genIssue], l.302-316 *)

Definition genIssue1 (issue : ContextIssues) (slxBase : ASTBase) : Issue ContextIssues :=
  genIssue2 [issue] (Some slxBase).

(** *** [reportLabelIssues], l.63-108 *)

(** l.73-79: a [Map] keeps its keys in insertion order. *)
Fixpoint lablesUsed_add (item : LabelItem) (lablesUsed : list (string * list LabelItem))
    : list (string * list LabelItem) :=
  match lablesUsed with
  | [] => [(label (item_label item), [item])]
  | (k, g) :: rest =>
      if bool_decide (k = label (item_label item)) then (k, g ++ [item]) :: rest
      else (k, g) :: lablesUsed_add item rest
  end.

Definition lablesUsed_of (items : list LabelItem) : list (string * list LabelItem) :=
  fold_left (λ m item, lablesUsed_add item m) items [].

(** [owner && owner.owner === firstLabeledNode?.owner], l.87 and l.92. *)
Definition sameOwnerAs (firstLabeledNode : option LabelItem) (o : LabelItem) : bool :=
  match firstLabeledNode with
  | Some f =>
      match item_owner f, item_owner o with
      | Some a, Some b => Owner_same b a
      | _, _ => false
      end
  | None => false
  end.

(** l.82-106: what one entry of the map pushes. *)
Definition labelIssuesOf (pair : string * list LabelItem) : list (Issue ContextIssues) :=
  let otherOwners := pair.2 in
  if bool_decide (1 < length otherOwners) then
    let firstLabeledNode :=
      List.find (λ o, match item_owner o with Some (OwnerNode _) => true | _ => false end)
                otherOwners in
    let allSameOwner := forallb (sameOwnerAs firstLabeledNode) otherOwners in
    if negb allSameOwner || negb (bool_decide (is_Some firstLabeledNode)) then
      match last otherOwners with
      | Some final =>
          [genIssue [LABEL_ALREADY_IN_USE] (Some (LabelAssignAst (item_label final))) Error
             (map (λ o, LabelAssignAst (item_label o)) (removelast otherOwners))
             (Some []) [label (item_label final)]]
      | None => []
      end
    else []
  else [].

Definition labelIssues (items : list LabelItem) : list (Issue ContextIssues) :=
  flat_map labelIssuesOf (lablesUsed_of items).

Definition reportLabelIssues (this : ContextAware) : ContextAware :=
  set_issues (λ old, old ++ labelIssues (allDescendantsLabelsMapped (heap this) (rootNode this)))
             this.

(** *** [resolvePath], l.269-300 *)

(** [s.startsWith('&')] and [s.slice(1)]. *)
Definition startsWithAmp (s : string) : bool :=
  match s with
  | String c _ => bool_decide (c = "&"%char)
  | EmptyString => false
  end.

Definition slice1 (s : string) : string :=
  match s with
  | String _ rest => rest
  | EmptyString => EmptyString
  end.

(** The predicate of the first [find], l.277-282. *)
Definition labelsChildNodeOf (h : gmap NodeRef Node) (root : NodeRef) (wanted : string)
    (l : LabelAssign) : bool :=
  match parentNode l with
  | ParentDtcChildNode (Some path) =>
      match getChild h root path ≫= (h !!.) with
      | Some n => existsb (λ ll, bool_decide (label ll = wanted)) (Node_labels n)
      | None => false
      end
  | _ => false
  end.

(** The predicate of the second [find], l.290-292. *)
Definition labelsRefNodeOf (wanted : string) (l : LabelAssign) : bool :=
  match parentNode l with
  | ParentDtcRefNode labelReferance _ =>
      bool_decide (labelReferance ≫= LabelRef_label = Some wanted)
  | _ => false
  end.

(** The method calls itself without a measure that decreases, and
    every call takes a frame of the call stack of the host: [fuel] is the
    number of nested calls that the stack has room for, and the call that
    finds no room throws the [RangeError] of the engine (maximum call
    stack size exceeded).  An empty [path] makes [path?.[0].startsWith]
    throw, and so does the [undefined] that l.296 passes on when the
    reference node has no [pathName]. *)
Fixpoint resolvePath (fuel : nat) (h : gmap NodeRef Node) (root : NodeRef)
    (path : list string) : Completion (option (list string)) :=
  match fuel with
  | 0 => Throw RangeError
  | S fuel' =>
      match path with
      | [] => Throw TypeError
      | first :: rest =>
          if negb (startsWithAmp first) then Normal (Some path)
          else
            let allLabels := allDescendantsLabels h root in
            let wanted := slice1 first in
            match parentNode <$> List.find (labelsChildNodeOf h root wanted) allLabels with
            | Some (ParentDtcChildNode (Some childPath)) =>
                resolvePath fuel' h root (childPath ++ rest)
            | _ =>
                match parentNode <$> List.find (labelsRefNodeOf wanted) allLabels with
                | Some (ParentDtcRefNode labelReferance pathName) =>
                    if truthy (labelReferance ≫= LabelRef_label) then
                      match pathName with
                      | Some p => resolvePath fuel' h root [p]
                      | None => Throw TypeError
                      end
                    else Normal None
                | _ => Normal None
                end
            end
      end
  end.

(** *** The state of the instance threaded through its methods *)

Definition M (A : Type) : Type := ContextAware → Completion (A * ContextAware).

Definition ret {A} (a : A) : M A := λ this, Normal (a, this).

Definition bind {A B} (m : M A) (k : A → M B) : M B :=
  λ this, cbind (m this) (λ r, k r.1 r.2).

Notation "x <- m ;; k" := (bind m (λ x, k))
  (at level 100, m at next level, right associativity).
Notation "m ;;; k" := (bind m (λ _, k))
  (at level 100, right associativity).

Definition modify (f : ContextAware → ContextAware) : M unit :=
  λ this, Normal (tt, f this).

Definition get {A} (f : ContextAware → A) : M A :=
  λ this, Normal (f this, this).

Definition liftC {A} (f : ContextAware → Completion A) : M A :=
  λ this, cbind (f this) (λ a, Normal (a, this)).

Definition pushIssue (i : Issue ContextIssues) : M unit :=
  modify (set_issues (λ old, old ++ [i])).

Fixpoint forEach {A} (f : A → M unit) (l : list A) : M unit :=
  match l with
  | [] => ret tt
  | a :: l' => f a ;;; forEach f l'
  end.

Definition when (b : bool) (m : M unit) : M unit := if b then m else ret tt.

(** [new Node(name, parent)]. *)
Definition newNode (name : string) (parent : option NodeRef) : M NodeRef :=
  λ this, Normal (Node_new name parent this).

(** [new Property(element)]: a new object, with an identity of its own. *)
Definition newProperty (element : DtcProperty) : M Property :=
  λ this, Normal (mkProperty (nextOid this) element None,
                  {| _issues := _issues this; rootNode := rootNode this; heap := heap this;
                     nextRef := nextRef this; nextOid := S (nextOid this) |}).

(** [this.resolvePath(path)] on the current tree. *)
Definition resolvePathM (fuel : nat) (path : list string) : M (option (list string)) :=
  liftC (λ this, resolvePath fuel (heap this) (rootNode this) path).

(** [this.rootNode.getChild(path)]. *)
Definition rootGetChild (path : list string) : M (option NodeRef) :=
  get (λ this, getChild (heap this) (rootNode this) path).

(** *** [checkNodeUniqueNames], l.144-163 *)

Definition checkNodeUniqueNames_step (child : ASTBase) (names : gset string)
    : gset string * list (Issue ContextIssues) :=
  match child with
  | ChildNodeAst c =>
      match DtcChildNode_name c with
      | Some nm =>
          ({[NodeName_toString nm]} ∪ names,
           if bool_decide (NodeName_name nm ∈ names)
           then [genIssue1 DUPLICATE_NODE_NAME (NodeNameAst nm)] else [])
      | None => (names, [])
      end
  | DeleteNodeAst d =>
      match DeleteNode_nodeNameOrRef d with
      | Some (inl nm) =>
          if bool_decide (NodeName_toString nm ∈ names)
          then (names ∖ {[NodeName_toString nm]}, [])
          else (names, [genIssue1 NODE_DOES_NOT_EXIST (NodeNameAst nm)])
      | _ => (names, [])
      end
  | _ => (names, [])
  end.

Fixpoint checkNodeUniqueNames_loop (children : list ASTBase) (names : gset string)
    : list (Issue ContextIssues) :=
  match children with
  | [] => []
  | child :: rest =>
      let r := checkNodeUniqueNames_step child names in
      r.2 ++ checkNodeUniqueNames_loop rest r.1
  end.

Definition checkNodeUniqueNames (children : list ASTBase) : M unit :=
  modify (set_issues (λ old, old ++ checkNodeUniqueNames_loop children ∅)).

(** *** The fold of the declarations, l.126-267

    [fuel] is the room on the call stack for the calls of [resolvePath];
    the methods below take the recursive [processChild] as their first
    argument. *)
Section Process.

Variable fuel : nat.
Variable processChild : ASTBase → NodeRef → M unit.

(** [processDtcRootNode], l.177-180. *)
Definition processDtcRootNode (element : DtcRootNode) : M unit :=
  root <- get rootNode;;
  modify (set_heap (alter (Node_push_root element) root));;;
  forEach (λ child, root <- get rootNode;; processChild child root)
          (DtcRootNode_children element).

(** [processDtcChildNode], l.182-194. *)
Definition processDtcChildNode (element : DtcChildNode) (runtimeNodeParent : NodeRef)
    : M unit :=
  runtimeNodeParent <-
    (match DtcChildNode_name element with
     | Some nm =>
         if truthy (Some (NodeName_name nm)) then
           resolvedPath <-
             (match DtcChildNode_path element with
              | Some p => resolvePathM fuel p
              | None => ret None
              end);;
           runtimeNode <-
             (match resolvedPath with
              | Some p => rootGetChild p
              | None => ret None
              end);;
           child <-
             (match runtimeNode with
              | Some r => ret r
              | None => newNode (NodeName_toString nm) (Some runtimeNodeParent)
              end);;
           modify (set_heap (alter (Node_push_definiton element) child));;;
           ret child
         else ret runtimeNodeParent
     | None => ret runtimeNodeParent
     end);;
  forEach (λ child, processChild child runtimeNodeParent) (DtcChildNode_children element).

(** [processDtcRefNode], l.196-217; [new Node('')] is evaluated anew
    for every child. *)
Definition processDtcRefNode (element : DtcRefNode) : M unit :=
  runtimeNode <-
    (match DtcRefNode_labelReferance element with
     | Some _ =>
         resolvedPath <-
           (if truthy (DtcRefNode_pathName element)
            then resolvePathM fuel [default "" (DtcRefNode_pathName element)]
            else ret None);;
         match resolvedPath with
         | None =>
             pushIssue (genIssue1 UNABLE_TO_RESOLVE_CHILD_NODE (RefNodeAst element));;;
             ret None
         | Some p =>
             runtimeNode <- rootGetChild p;;
             (match runtimeNode with
              | Some r => modify (set_heap (alter (Node_push_referancesBy element) r))
              | None => ret tt
              end);;;
             root <- get rootNode;;
             modify (set_heap (alter (Node_push_referance element) root));;;
             ret runtimeNode
         end
     | None => ret None
     end);;
  forEach (λ child,
             target <- (match runtimeNode with
                        | Some r => ret r
                        | None => newNode "" None
                        end);;
             processChild child target)
          (DtcRefNode_children element).

(** [processDtcBaseNode], l.165-175. *)
Definition processDtcBaseNode (element : ASTBase) (runtimeNodeParent : NodeRef) : M unit :=
  checkNodeUniqueNames (ASTBase_children element);;;
  match element with
  | RootNodeAst n => processDtcRootNode n
  | ChildNodeAst n => processDtcChildNode n runtimeNodeParent
  | RefNodeAst n => processDtcRefNode n
  | _ => ret tt
  end.

(** [processDtcProperty], l.219-225. *)
Definition processDtcProperty (element : DtcProperty) (runtimeNodeParent : NodeRef)
    : M unit :=
  when (truthy (PropertyName_name <$> DtcProperty_propertyName element))
    (property <- newProperty element;;
     modify (set_heap (addProperty runtimeNodeParent property)));;;
  forEach (λ child, processChild child runtimeNodeParent) (DtcProperty_children element).

(** [processDeleteNode], l.227-252. *)
Definition processDeleteNode (element : DeleteNode) (runtimeNodeParent : NodeRef)
    : M unit :=
  (match DeleteNode_nodeNameOrRef element with
   | Some (inl nm) =>
       if truthy (Some (NodeName_value nm)) then
         when (DeleteNode_parentNode_parentNode element)
           (has <- get (λ this, hasNode (heap this) runtimeNodeParent (NodeName_value nm));;
            if negb has
            then pushIssue (genIssue1 NODE_DOES_NOT_EXIST (NodeNameAst nm))
            else modify (set_heap (deleteNode runtimeNodeParent (NodeName_value nm))))
       else ret tt
   | Some (inr ref) =>
       if truthy (LabelRef_value ref) then
         resolvedPath <- resolvePathM fuel ["&" +:+ default "" (LabelRef_value ref)];;
         match resolvedPath with
         | None =>
             pushIssue (genIssue1 UNABLE_TO_RESOLVE_CHILD_NODE (DeleteNodeAst element))
         | Some p =>
             runtimeNode <- rootGetChild p;;
             modify (set_heap (λ h,
               match runtimeNode ≫= (h !!.) with
               | Some n =>
                   match Node_parent n with
                   | Some parent => deleteNode parent (Node_name n) h
                   | None => h
                   end
               | None => h
               end))
         end
       else ret tt
   | None => ret tt
   end);;;
  forEach (λ child, processChild child runtimeNodeParent) (DeleteNode_children element).

(** [processDeleteProperty], l.254-267. *)
Definition processDeleteProperty (element : DeleteProperty) (runtimeNodeParent : NodeRef)
    : M unit :=
  (match DeleteProperty_propertyName element with
   | Some pn =>
       if truthy (Some (PropertyName_name pn)) then
         has <- get (λ this, hasProperty (heap this) runtimeNodeParent (PropertyName_name pn));;
         if negb has
         then pushIssue (genIssue1 PROPERTY_DOES_NOT_EXIST (PropertyNameAst pn))
         else modify (set_heap (deleteProperty runtimeNodeParent (PropertyName_name pn)))
       else ret tt
   | None => ret tt
   end);;;
  forEach (λ child, processChild child runtimeNodeParent) (DeleteProperty_children element).

(** The body of [processChild], l.132-142. *)
Definition processChild_body (element : ASTBase) (runtimeNodeParent : NodeRef) : M unit :=
  match element with
  | RootNodeAst _ | ChildNodeAst _ | RefNodeAst _ =>
      processDtcBaseNode element runtimeNodeParent
  | PropertyAst p => processDtcProperty p runtimeNodeParent
  | DeleteNodeAst d => processDeleteNode d runtimeNodeParent
  | DeletePropertyAst d => processDeleteProperty d runtimeNodeParent
  | _ => ret tt
  end.

End Process.

(** [processChild], l.132-142. *)
Fixpoint processChild (fuel : nat) (element : ASTBase) (runtimeNodeParent : NodeRef)
    {struct element} : M unit :=
  processChild_body fuel (processChild fuel) element runtimeNodeParent.

(** The elements that no branch of [processChild] takes. *)
Definition inert (e : ASTBase) : bool :=
  match e with
  | RootNodeAst _ | ChildNodeAst _ | RefNodeAst _ | PropertyAst _
  | DeleteNodeAst _ | DeletePropertyAst _ => false
  | _ => true
  end.

(** [processRoot], l.126-130. *)
Definition processRoot (fuel : nat) (element : DtcBaseNode) : M unit :=
  forEach (λ child, root <- get rootNode;; processChild fuel child root)
          (DtcBaseNode_children element).

(** [process], l.110-124. *)
Definition process (fuel : nat) (astMap : gmap string CachedParse) (fileMap : list string)
    : M unit :=
  let ast := map (λ file, (file, parser_rootDocument <$> astMap !! file)) fileMap in
  if existsb (λ tree, negb (bool_decide (is_Some tree.2))) ast then ret tt
  else
    forEach (λ root,
               match root.2 with
               | Some tree => processRoot fuel tree
               | None => ret tt
               end) ast.

(** The field initialisers of l.52-53: no issues, and [new Node('/')],
    which takes the first reference of the empty store. *)
Definition initial : ContextAware :=
  (Node_new "/" None
     {| _issues := []; rootNode := 0; heap := ∅; nextRef := 0; nextOid := 0 |}).2.

(** The constructor, l.55-58. *)
Definition new (fuel : nat) (astMap : gmap string CachedParse) (fileMap : list string)
    : Completion ContextAware :=
  cbind (process fuel astMap fileMap initial) (λ r, Normal (reportLabelIssues r.2)).

(** [get issues()], l.59-61. *)
Definition ContextAware_issues (this : ContextAware) : list (Issue ContextIssues) :=
  Node_issues (heap this) (rootNode this) ++ _issues this.

End Resolver.

(** ** [interrupts-extended] (server/src/dtsTypes/standardTypes/interruptsExtended.ts) *)
Module InterruptsExtended.
Import Types.

(** What [getInterruptInfo] returns, as l.93-133 read it; a cell count is
    an integer of either sign. *)
Record InterruptInfo : Type := mkInterruptInfo {
  cellsProperty : option Property;
  node : Node;
  value : option Z;
}.

Section Check.

(** The members of [Property] and [Node] that this file reads beyond
    those above, and the helpers of [standardTypes/helpers.ts]; the
    check is stated for any of them. *)
Variable Property_parent : Property → Node.
Variable Node_root : Node → Node.
Variable Node_path : Node → list string.
Variable nodeNameOrLabelRef : Node → list ASTBase.
Variable flatNumberValues : option PropertyValues → option (list ASTBase).
Variable resolvePhandleNode : option ASTBase → Node → option Node.
Variable getInterruptInfo : Node → InterruptInfo.

(** [a.join("/")]. *)
Fixpoint joinSlash (a : list string) : string :=
  match a with
  | [] => ""
  | [s] => s
  | s :: rest => s +:+ "/" +:+ joinSlash rest
  end.

(** [values[i]], [undefined] out of range. *)
Definition at_index (values : list ASTBase) (i : Z) : option ASTBase :=
  if bool_decide (0 ≤ i)%Z then values !! Z.to_nat i else None.

(** The [IGNORED] warning of l.41-52 and l.55-69. *)
Definition ignoredWarning (property : Property) (other : option Property)
    : list (Issue StandardTypeIssue) :=
  match other with
  | Some o =>
      [genIssue [IGNORED] (Some (PropertyAst (ast o))) Warning
         [PropertyAst (ast property)] (Some [])
         [Property_name o; "is ignored when 'interrupts-extended' is used"]]
  | None => []
  end.

(** The [while] loop of l.78-134; it has no bound of its own. *)
Fixpoint walk (fuel : nat) (property : Property) (root : Node) (values : list ASTBase)
    (i : Z) (issues : list (Issue StandardTypeIssue))
    : Completion (list (Issue StandardTypeIssue)) :=
  match fuel with
  | 0 => OutOfFuel
  | S fuel' =>
      if bool_decide (i < Z.of_nat (length values))%Z then
        match resolvePhandleNode (at_index values i) root with
        | None =>
            Normal (issues ++
              [genIssue [INTERRUPTS_PARENT_NODE_NOT_FOUND] (at_index values i)
                 Error [] None []])
        | Some phandleNode =>
            let interruptCells := getInterruptInfo phandleNode in
            match cellsProperty interruptCells with
            | None =>
                Normal (issues ++
                  [genIssue [PROPERTY_REQUIRES_OTHER_PROPERTY_IN_NODE]
                     (Some (PropertyAst (ast property))) Error
                     (nodeNameOrLabelRef (node interruptCells)) (Some [])
                     [Property_name property; "#interrupt-cells";
                      "/" +:+ joinSlash (tail (Node_path (node interruptCells)))]])
            | Some cells =>
                let remaining := (Z.of_nat (length values) - i - 1)%Z in
                match value interruptCells with
                | None => Normal issues
                | Some v =>
                    if bool_decide (remaining < v)%Z then
                      Normal (issues ++
                        [genIssue [INTERRUPTS_VALUE_CELL_MISS_MATCH] (at_index values i)
                           Error [PropertyAst (ast cells)] (Some [])
                           [Property_name property; pretty v]])
                    else walk fuel' property root values (i + (v + 1))%Z issues
                end
            end
        end
      else Normal issues
  end.

(** The [additionalTypeCheck] of the binding, l.35-137. *)
Definition additionalTypeCheck (fuel : nat) (property : Property)
    : Completion (list (Issue StandardTypeIssue)) :=
  let node := Property_parent property in
  let issues :=
    ignoredWarning property (getProperty node "interrupts")
    ++ ignoredWarning property (getProperty node "interrupt-parent") in
  let root := Node_root node in
  match flatNumberValues (DtcProperty_values (ast property)) with
  | None | Some [] => Normal []
  | Some values => walk fuel property root values 0 issues
  end.

End Check.

End InterruptsExtended.

(** ** Completion items (server/src/dtsTypes/types.ts, l.280-310) *)
Module CompletionItems.
Import Types.

(** [CompletionItemKind] of the language-server protocol: the one kind
    this code uses. *)
Inductive CompletionItemKind : Type := kind_Variable.

(** [CompletionItem]: the members this code sets. *)
Record CompletionItem : Type := mkCompletionItem {
  item_text : string;
  kind : CompletionItemKind;
  sortText : string;
}.

(** [v === this.def ? `A${v}` : `Z${v}`], l.293 and l.305. *)
Definition sortTextOf (def : option string) (v : string) : string :=
  if bool_decide (def = Some v) then "A" +:+ v else "Z" +:+ v.

(** [getPropertyCompletionItems], l.280-310; [item_text] is the
    [label] of the item. *)
Definition getPropertyCompletionItems {RegExp : Type}
    (this : PropertyNodeType (RegExp := RegExp)) (property : Property)
    : list CompletionItem :=
  let written :=
    match DtcProperty_values (ast property) with
    | Some vs => length (PropertyValues_values vs)
    | None => 0
    end in
  let currentValue := type this !! written in
  if match currentValue with
     | Some slot => existsb (λ tt, bool_decide (tt = STRING)) (types slot)
     | None => false
     end
  then
    if match DtcProperty_values (ast property) with
       | Some vs => bool_decide (1 < length (PropertyValues_values vs))
       | None => false
       end
    then []
    else
      map (λ v, {| item_text := dquote +:+ v +:+ dquote;
                   kind := kind_Variable;
                   sortText := sortTextOf (def this) v |}) (values this property)
  else if match currentValue with
          | Some slot =>
              existsb (λ tt, bool_decide (tt = U32) || bool_decide (tt = U64)) (types slot)
          | None => false
          end
  then
    map (λ v, {| item_text := "<" +:+ v +:+ ">";
                 kind := kind_Variable;
                 sortText := sortTextOf (def this) v |}) (values this property)
  else [].

End CompletionItems.

(** ** The class [DeleteNode] (server/src/ast/dtc/deleteNode.ts) *)
Module DeleteNodeClass.

(** The instance: the private [_nodeNameOrRef] and the inherited list of
    [children]. *)
Record DeleteNodeObject : Type := mkDeleteNodeObject {
  _nodeNameOrRef : option (NodeName + LabelRef);
  DeleteNodeObject_children : list ASTBase;
}.

Section AddChild.

(** [ASTBase.addChild] of the base class, for a child that may be
    [null]. *)
Variable addChild : option ASTBase → list ASTBase → list ASTBase.

Definition elementOf (v : NodeName + LabelRef) : ASTBase :=
  match v with
  | inl n => NodeNameAst n
  | inr r => LabelRefAst r
  end.

(** The constructor, l.12-19. *)
Definition DeleteNode_new (keyword : ASTBase) : DeleteNodeObject :=
  {| _nodeNameOrRef := None;
     DeleteNodeObject_children := addChild (Some keyword) [] |}.

(** [set nodeNameOrRef], l.21-25: [inl message] is the [Error] thrown. *)
Definition set_nodeNameOrRef (nodeNameOrRef : option (NodeName + LabelRef))
    (this : DeleteNodeObject) : string + DeleteNodeObject :=
  match _nodeNameOrRef this with
  | Some _ => inl "Only on property name is allowed"
  | None =>
      inr {| _nodeNameOrRef := nodeNameOrRef;
             DeleteNodeObject_children :=
               addChild (elementOf <$> nodeNameOrRef) (DeleteNodeObject_children this) |}
  end.

(** [get nodeNameOrRef], l.27-29. *)
Definition get_nodeNameOrRef (this : DeleteNodeObject) : option (NodeName + LabelRef) :=
  _nodeNameOrRef this.

End AddChild.

End DeleteNodeClass.

(** ** Concrete inputs used by the examples below *)
Module Inputs.
Import Types.

Definition value_of (v : AllValueType) : option PropertyValue :=
  Some (mkPropertyValue v).

(** A property [name = values;] ([name;] when [values] is [None]). *)
Definition property_of (oid : nat) (name : string)
    (values : option (list (option PropertyValue))) : Property :=
  mkProperty oid
    (mkDtcProperty (Some (mkPropertyName name)) (mkPropertyValues <$> values) [] []) None.

Definition node_with (properties : list Property) : Node :=
  {| Node_name := "soc"; Node_parent := None; Node_nodes := [];
     Node_properties := properties; definitons := []; referancesBy := [];
     roots := []; referances := [] |}.

Definition soc_ast : ASTBase :=
  ChildNodeAst (mkDtcChildNode (Some (mkNodeName "soc" "soc" "soc")) (Some ["/"; "soc"]) [] []).

Definition runtime0 : Runtime := {| getOrderedNodeAst := λ _, [soc_ast] |}.

(** A two-slot binding: a [U32] followed by a [STRING]. *)
Definition pair_binding {RegExp : Type} : PropertyNodeType (RegExp := RegExp) :=
  PropertyNodeType_new (inl "pair") [mkTypeConfig [U32]; mkTypeConfig [STRING]]
    (inl st_optional) None (inl []) None.

(** [pair = <1>, <2>;] *)
Definition pair_u32_u32 : Property :=
  property_of 0 "pair"
    (Some [value_of (ArrayValues [NumberValue 1]); value_of (ArrayValues [NumberValue 2])]).

(** [pair = <1>, "s";] *)
Definition pair_u32_string : Property :=
  property_of 0 "pair"
    (Some [value_of (ArrayValues [NumberValue 1]); value_of (StringValue "s")]).

(** An enumerated binding whose slot takes a string or nothing. *)
Definition status_binding {RegExp : Type} : PropertyNodeType (RegExp := RegExp) :=
  PropertyNodeType_new (inl "status") [mkTypeConfig [STRING; EMPTY]]
    (inl st_optional) (Some "okay") (inl ["okay"; "disabled"]) None.

(** [status;] *)
Definition status_empty : Property := property_of 0 "status" None.

Definition requirement_binding {RegExp : Type} (status : RequirementStatus)
    : PropertyNodeType (RegExp := RegExp) :=
  PropertyNodeType_new (inl "reg") [mkTypeConfig [PROP_ENCODED_ARRAY]]
    (inl status) None (inl []) None.

Definition reg_property : Property :=
  property_of 0 "reg" (Some [value_of (ArrayValues [NumberValue 0; NumberValue 4])]).







(** A host without regular expressions worth the name: every pattern
    compiles and none matches. *)
Definition plain_RegExp_new : string → option unit := λ _, Some ().
Definition plain_String_match : string → unit → bool := λ _ _, false.

End Inputs.

(** ** Concrete trees and label pools *)
Module TreeInputs.
Import Resolver.

(** [a: n { };] under the root, and the reference node [foo: &b { };]. *)
Definition label_a : LabelAssign :=
  {| LabelAssign_uid := 1; label := "a";
     parentNode := ParentDtcChildNode (Some ["/"; "n"]) |}.

Definition label_foo : LabelAssign :=
  {| LabelAssign_uid := 2; label := "foo";
     parentNode := ParentDtcRefNode (Some (mkLabelRef (Some "b"))) (Some "&b") |}.

Definition n_definition : DtcChildNode :=
  mkDtcChildNode (Some (mkNodeName "n" "n" "n")) (Some ["/"; "n"]) [label_a] [].

Definition b_reference : DtcRefNode :=
  mkDtcRefNode (Some (mkLabelRef (Some "b"))) (Some "&b") [label_foo] [].

(** The store of a tree [/] with the one child [n]. *)
Definition tree : gmap NodeRef Node :=
  {[ 0 := {| Node_name := "/"; Node_parent := None; Node_nodes := [1];
             Node_properties := []; definitons := []; referancesBy := [];
             roots := []; referances := [] |};
     1 := {| Node_name := "n"; Node_parent := Some 0; Node_nodes := [];
             Node_properties := []; definitons := [n_definition];
             referancesBy := [b_reference]; roots := []; referances := [] |} ]}.

(** [x = <1>;] merged into a node that holds [x;]. *)
Definition x_first : DtcProperty :=
  mkDtcProperty (Some (mkPropertyName "x")) None [] [PropertyNameAst (mkPropertyName "x")].

Definition x_second : DtcProperty :=
  mkDtcProperty (Some (mkPropertyName "x"))
    (Some (mkPropertyValues [Some (mkPropertyValue (ArrayValues [NumberValue 1]))]))
    [] [PropertyNameAst (mkPropertyName "x")].

Definition before_merge : ContextAware :=
  {| _issues := []; rootNode := 0;
     heap := {[ 0 := {| Node_name := "/"; Node_parent := None; Node_nodes := [];
                        Node_properties := [mkProperty 0 x_first None];
                        definitons := []; referancesBy := [];
                        roots := []; referances := [] |} ]};
     nextRef := 1; nextOid := 1 |}.












End TreeInputs.

(** ** A concrete interrupt tree *)
Module InterruptInputs.
Import Types InterruptsExtended.

Definition cells_property : Property :=
  Inputs.property_of 7 "#interrupt-cells"
    (Some [Inputs.value_of (ArrayValues [NumberValue 2])]).

Definition pic : Node := Inputs.node_with [cells_property].
Definition plain : Node :=
  {| Node_name := "plain"; Node_parent := None; Node_nodes := [];
     Node_properties := []; definitons := []; referancesBy := [];
     roots := []; referances := [] |}.
Definition device : Node := Inputs.node_with [].

Definition phandle (name : string) : ASTBase :=
  CellAst (LabelRefValue (mkLabelRef (Some name))).
Definition cell (n : Z) : ASTBase := CellAst (NumberValue n).

(** [&pic] resolves to a controller with [#interrupt-cells = <2>],
    [&plain] to a node without the property, and nothing else resolves. *)
Definition resolve (v : option ASTBase) (root : Node) : option Node :=
  match v with
  | Some (CellAst (LabelRefValue r)) =>
      if bool_decide (LabelRef_label r = Some "pic") then Some pic
      else if bool_decide (LabelRef_label r = Some "plain") then Some plain
      else None
  | _ => None
  end.

Definition info (n : Node) : InterruptInfo :=
  match getProperty n "#interrupt-cells" with
  | Some p => {| cellsProperty := Some p; node := n; value := Some 2%Z |}
  | None => {| cellsProperty := None; node := n; value := None |}
  end.

(** The cells of the [<...>] groups of the property, flattened. *)
Definition flatten (vs : option PropertyValues) : option (list ASTBase) :=
  (λ vs, flat_map (λ v, match v with
                        | Some (mkPropertyValue (ArrayValues cs)) => map CellAst cs
                        | _ => []
                        end) (PropertyValues_values vs)) <$> vs.

Definition interrupts_of (cells : list Cell) : Property :=
  Inputs.property_of 9 "interrupts-extended" (Some [Inputs.value_of (ArrayValues cells)]).

Definition pic_ref : Cell := LabelRefValue (mkLabelRef (Some "pic")).
Definition plain_ref : Cell := LabelRefValue (mkLabelRef (Some "plain")).
Definition gone_ref : Cell := LabelRefValue (mkLabelRef (Some "gone")).

End InterruptInputs.

(** ** More concrete inputs *)
Module MoreInputs.
Import Types Inputs.

(** The pattern that l.243 of types.ts builds for an enumerated value. *)
Definition enum_pattern (v : string) : string :=
  "^[" +:+ dquote +:+ "']" +:+ v +:+ "[" +:+ dquote +:+ "']$".

(** A host that keeps the source of a pattern, and knows that the
    pattern of [okay] matches the text [okay] in double quotes. *)
Definition source_RegExp_new : string → option string := Some.
Definition okay_String_match (text re : string) : bool :=
  bool_decide (re = enum_pattern "okay")
  && bool_decide (text = dquote +:+ "okay" +:+ dquote).

(** [status = "okay";] and [status = "on";], with the quotes kept in
    the text of the value. *)
Definition status_okay : Property :=
  property_of 0 "status" (Some [value_of (StringValue (dquote +:+ "okay" +:+ dquote))]).
Definition status_on : Property :=
  property_of 0 "status" (Some [value_of (StringValue (dquote +:+ "on" +:+ dquote))]).

(** The binding of [status]: one [STRING], enumerated. *)
Definition status_string_binding {RegExp : Type} : PropertyNodeType (RegExp := RegExp) :=
  PropertyNodeType_new (inl "status") [mkTypeConfig [STRING]]
    (inl st_optional) (Some "okay") (inl ["okay"; "disabled"]) None.

End MoreInputs.

(** ** More concrete declarations *)
Module MoreTreeInputs.
Import Resolver.

Definition child_named (name : string) : DtcChildNode :=
  mkDtcChildNode (Some (mkNodeName name name name)) (Some ["/"; name]) [] [].

(** A state with the bare root. *)
Definition bare : ContextAware := initial.

(** [;] with nothing before it: a property without a name. *)
Definition unnamed_property : DtcProperty := mkDtcProperty None None [] [KeywordAst].

(** [/delete-node/ n;] at the top level of a file. *)
Definition delete_n_at_top : DeleteNode :=
  mkDeleteNode (Some (inl (mkNodeName "n" "n" "n"))) false [KeywordAst].

(** [/delete-property/ x;] *)
Definition delete_x : DeleteProperty :=
  mkDeleteProperty (Some (mkPropertyName "x")) [KeywordAst].


(** One file [/ { n { x; }; };]. *)
Definition one_file : CachedParse :=
  mkCachedParse (mkDtcBaseNode
    [RootNodeAst (mkDtcRootNode
       [ChildNodeAst (mkDtcChildNode (Some (mkNodeName "n" "n" "n")) (Some ["/"; "n"]) []
          [PropertyAst (mkDtcProperty (Some (mkPropertyName "x")) None [] [])])])]).

Definition cache : gmap string CachedParse :=
  {[ "a.dts" := one_file; "b.dts" := one_file ]}.

End MoreTreeInputs.

(** ** An interrupt parent with a negative cell count *)
Module MoreInterruptInputs.
Import Types InterruptsExtended InterruptInputs.

(** Every parent has [#interrupt-cells = <(-1)>]. *)
Definition negative_info (n : Node) : InterruptInfo :=
  {| cellsProperty := Some cells_property; node := n; value := Some (-1)%Z |}.

End MoreInterruptInputs.

(** * Theorems *)

(** ** The validator *)
Module TypesFacts.
Import Types Inputs.

(** C1. The value profile classifies a string literal as [STRING], a cell
    array with one cell as [U32], with two cells as [U64], with more cells
    as [PROP_ENCODED_ARRAY], a label reference and a node-path reference
    as [U32]; the profile of a property lists the class of each of its
    values in order, and a property without values has the profile
    [[EMPTY]]. *)
Theorem value_profile_classification :
  (∀ s, propertyValueToPropetyType (Some (mkPropertyValue (StringValue s))) = STRING)
  ∧ (∀ c, propertyValueToPropetyType (Some (mkPropertyValue (ArrayValues [c]))) = U32)
  ∧ (∀ c1 c2,
       propertyValueToPropetyType (Some (mkPropertyValue (ArrayValues [c1; c2]))) = U64)
  ∧ (∀ c1 c2 c3 cs,
       propertyValueToPropetyType
         (Some (mkPropertyValue (ArrayValues (c1 :: c2 :: c3 :: cs)))) = PROP_ENCODED_ARRAY)
  ∧ (∀ r, propertyValueToPropetyType (Some (mkPropertyValue (LabelRefV r))) = U32)
  ∧ (∀ p, propertyValueToPropetyType (Some (mkPropertyValue (NodePathRef p))) = U32)
  ∧ (∀ oid n vs ls cs r,
       propertyValuesToPropetyType (mkProperty oid (mkDtcProperty n (Some vs) ls cs) r)
       = map propertyValueToPropetyType (PropertyValues_values vs))
  ∧ (∀ oid n ls cs r,
       propertyValuesToPropetyType (mkProperty oid (mkDtcProperty n None ls cs) r)
       = [EMPTY]).
Proof.
  repeat split; try reflexivity.
Qed.

(** Membership in a slot, as the three [some] of [typeIsValid] test it. *)
Lemma existsb_eq_elem (x : PropetyType) (l : list PropetyType) :
  existsb (λ tt, bool_decide (tt = x)) l = true ↔ x ∈ l.
Proof.
  rewrite existsb_exists. split.
  - intros (y & Hin & Hy). apply bool_decide_eq_true in Hy. subst y.
    by apply list_elem_of_In.
  - intros Hin. exists x. split; [by apply list_elem_of_In | by apply bool_decide_eq_true].
Qed.

Lemma typeIsValid_spec (expected : list PropetyType) (t : PropetyType) :
  typeIsValid expected t = true
  ↔ t ∈ expected
    ∨ (STRINGLIST ∈ expected ∧ (t = STRING ∨ t = STRINGLIST))
    ∨ (PROP_ENCODED_ARRAY ∈ expected ∧ (t = U32 ∨ t = U64)).
Proof.
  unfold typeIsValid.
  rewrite !orb_true_iff, !andb_true_iff, !orb_true_iff, !existsb_eq_elem,
    !bool_decide_eq_true.
  tauto.
Qed.

Section Engine.

Context {RegExp : Type}.
Variable RegExp_new : string → option RegExp.
Variable String_match : string → RegExp → bool.



(** The first half of C3 holds: a composite binding whose slots and
    values differ in number yields exactly one
    [EXPECTED_COMPOSITE_LENGTH] diagnostic. *)
Lemma composite_length_mismatch (this : PropertyNodeType) (runtime : Runtime)
    (node : Node) (n : string) (property : Property) :
  1 < length (type this) →
  list_flag this = false →
  required this node ≠ st_ommited →
  length (type this) ≠ length (propertyValuesToPropetyType property) →
  validateProperty RegExp_new String_match this runtime node n (Some property)
  = Normal [genIssue [EXPECTED_COMPOSITE_LENGTH] (Some (valuesOrAst property))
              Error [] (Some []) [n; pretty (length (type this))]].
Proof.
  intros Hlen Hlist Hreq Hne. unfold validateProperty.
  destruct (type this) as [| type0 [| type1 rest]] eqn:Et; simpl in Hlen; try lia.
  assert (validateComposite this type0 n property (propertyValuesToPropetyType property)
          = [genIssue [EXPECTED_COMPOSITE_LENGTH] (Some (valuesOrAst property))
               Error [] (Some []) [n; pretty (length (type this))]]) as ->.
  { unfold validateComposite. rewrite Hlist. simpl.
    rewrite bool_decide_eq_false_2; [done | by rewrite Et in *]. }
  rewrite Et. by destruct (required this node).
Qed.

(** C3, second half, on two concrete properties of a binding with the
    slots [[U32]] and [[STRING]].  In [pair = <1>, <2>;] the value at
    position 1 is a [U32], which the slot of its position does not
    accept, and no diagnostic is emitted.  In [pair = <1>, "s";] the
    value at position 1 is a [STRING], which the slot of its position
    accepts, and a diagnostic is emitted on it: both values are tested
    against the slot at position 0. *)
Theorem composite_values_are_checked_against_slot_0 :
  (typeIsValid [STRING] U32 = false
   ∧ validate RegExp_new String_match pair_binding runtime0 (node_with [pair_u32_u32])
     = Normal [])
  ∧ (typeIsValid [STRING] STRING = true
     ∧ validate RegExp_new String_match pair_binding runtime0 (node_with [pair_u32_string])
       = Normal [genIssue2 [EXPECTED_STRINGLIST]
                   (Some (PropertyValueAst (mkPropertyValue (StringValue "s"))))]).
Proof. repeat split. Qed.

(** C4. For a binding with a literal name: when [required] yields
    "required" and the node has no property of that name, validation
    returns one [REQUIRED] diagnostic of severity [Error]; when it
    yields "ommited" and the property is there, one [OMITTED] diagnostic
    of severity [Error] on the property; a property that is absent
    under "optional" or "ommited" yields no diagnostic. *)
Theorem required_and_omitted (this : PropertyNodeType) (runtime : Runtime)
    (node : Node) (n : string) :
  name this = inl n →
  (required this node = st_required →
   getProperty node n = None →
   validate RegExp_new String_match this runtime node
   = Normal [genIssue [REQUIRED] (head (getOrderedNodeAst runtime node)) Error
               (tail (getOrderedNodeAst runtime node)) (Some []) [n]])
  ∧ (∀ property,
       required this node = st_ommited →
       getProperty node n = Some property →
       validate RegExp_new String_match this runtime node
       = Normal [genIssue [OMITTED] (Some (PropertyAst (ast property))) Error []
                   (Some []) [n]])
  ∧ (required this node = st_optional ∨ required this node = st_ommited →
     getProperty node n = None →
     validate RegExp_new String_match this runtime node = Normal []).
Proof.
  intros Hname. unfold validate, validateProperty. rewrite Hname.
  split; [| split].
  - intros -> ->. reflexivity.
  - intros property -> ->. reflexivity.
  - intros [-> | ->] ->; reflexivity.
Qed.

(** C5 fails on the code.  The binding [status] has enumerated values
    and one slot that accepts [STRING] or [EMPTY]; on the property
    [status;], which has no first value, the type check passes and the
    enumeration test then reads [value] of [undefined]: [validate]
    throws a [TypeError] instead of returning diagnostics. *)
Theorem validate_throws_on_absent_first_value :
  validate RegExp_new String_match status_binding runtime0 (node_with [status_empty])
  = Throw TypeError.
Proof. reflexivity. Qed.

End Engine.



Lemma required_and_omitted_witness :
  validate plain_RegExp_new plain_String_match (requirement_binding st_required)
    runtime0 (node_with [])
  = Normal [genIssue [REQUIRED] (Some soc_ast) Error [] (Some []) ["reg"]]
  ∧ validate plain_RegExp_new plain_String_match (requirement_binding st_ommited)
      runtime0 (node_with [reg_property])
    = Normal [genIssue [OMITTED] (Some (PropertyAst (ast reg_property))) Error []
                (Some []) ["reg"]]
  ∧ validate plain_RegExp_new plain_String_match (requirement_binding st_optional)
      runtime0 (node_with [])
    = Normal [].
Proof.
  split; [| split].
  - apply (proj1 (required_and_omitted plain_RegExp_new plain_String_match
                    (requirement_binding st_required) runtime0 (node_with []) "reg"
                    eq_refl)); reflexivity.
  - apply (proj1 (proj2 (required_and_omitted plain_RegExp_new plain_String_match
                           (requirement_binding st_ommited) runtime0
                           (node_with [reg_property]) "reg" eq_refl)));
      reflexivity.
  - apply (proj2 (proj2 (required_and_omitted plain_RegExp_new plain_String_match
                           (requirement_binding st_optional) runtime0 (node_with [])
                           "reg" eq_refl)));
      [left |]; reflexivity.
Defined.

End TypesFacts.

(** ** Replaced properties *)
Module PropertyFacts.
Import Resolver TreeInputs.

(** The hint that [successor] puts on the definition it replaces. *)
Local Notation duplicateHint successor replaced :=
  {| issues := [DUPLICATE_PROPERTY_NAME];
     astElement := Some (PropertyAst (ast replaced));
     severity := Hint;
     linkedTo := [PropertyAst (ast successor)];
     tags := Some [Unnecessary];
     templateStrings := [Property_name successor] |}.

Lemma replacedIssues_step (p r : Property) :
  replaces p = Some r →
  replacedIssues p = replacedIssues r ++ [duplicateHint p r].
Proof. destruct p as [oid a [r' |]]; simpl; [| done]. by intros [= ->]. Qed.

Lemma replacedIssues_length (p : Property) :
  length (replacedIssues p) = length (allReplaced p).
Proof.
  induction p as [oid a | oid a r IH] using Property_chain_ind; simpl; [done |].
  rewrite length_app, IH. simpl. lia.
Qed.

(** Every earlier definition of the chain carries the hint of the
    definition that replaced it. *)
Lemma replacedIssues_chain (p q : Property) :
  q ∈ allReplaced p →
  ∃ successor,
    (successor = p ∨ successor ∈ allReplaced p)
    ∧ replaces successor = Some q
    ∧ duplicateHint successor q ∈ replacedIssues p.
Proof.
  induction p as [oid a | oid a r IH] using Property_chain_ind; simpl.
  - by intros ?%elem_of_nil.
  - intros [-> | Hq]%elem_of_cons.
    + exists (mkProperty oid a (Some r)). split; [by left |]. split; [done |].
      apply elem_of_app. right. by apply list_elem_of_singleton.
    + destruct (IH Hq) as (s & Hs & Hrep & Hin).
      exists s. split.
      * right. destruct Hs as [-> | Hs]; [by left | by right].
      * split; [done |]. apply elem_of_app. by left.
Qed.

Lemma find_filter_out (name : string) (ps : list Property) :
  List.find (λ p, bool_decide (Property_name p = name))
    (List.filter (λ p, negb (bool_decide (Property_name p = name))) ps) = None.
Proof.
  induction ps as [| p ps IH]; simpl; [done |].
  destruct (bool_decide (Property_name p = name)) eqn:E; simpl; [done |].
  by rewrite E.
Qed.

Lemma find_app_none {A} (f : A → bool) (l1 l2 : list A) :
  List.find f l1 = None → List.find f (l1 ++ l2) = List.find f l2.
Proof.
  induction l1 as [| a l1 IH]; simpl; [done |]. destruct (f a); [done | exact IH].
Qed.

(** [addProperty] on a node that holds a property of that name: the node
    then holds the new property, which replaces the previous one. *)
Lemma addPropertyTo_replaces (property previous : Property) (n : Node) :
  getProperty n (Property_name property) = Some previous →
  getProperty (addPropertyTo property n) (Property_name property)
  = Some (mkProperty (Property_oid property) (ast property) (Some previous)).
Proof.
  intros Hprev. unfold addPropertyTo. rewrite Hprev. unfold getProperty. simpl.
  rewrite find_app_none by apply find_filter_out. simpl.
  rewrite bool_decide_eq_true_2; [done |].
  by destruct property.
Qed.

Lemma forEach_inert (fuel : nat) (r : NodeRef) (children : list ASTBase)
    (this : ContextAware) :
  Forall (λ c, inert c = true) children →
  forEach (λ child, processChild fuel child r) children this = Normal (tt, this).
Proof.
  induction 1 as [| c cs Hc _ IH]; [done |].
  simpl. unfold bind at 1.
  assert (processChild fuel c r this = Normal (tt, this)) as ->.
  { destruct c; simpl in Hc; try done. }
  simpl. exact IH.
Qed.

(** C8. When a [DtcProperty] is merged into a node that already holds a
    property of the same name, the node afterwards holds a new [Property]
    for that element whose [replaces] is the previous one; and in the
    issues of a property every earlier definition of its [replaces] chain
    has a [DUPLICATE_PROPERTY_NAME] diagnostic on its AST element, with
    severity [Hint], the tag [Unnecessary], and the definition that
    replaced it in [linkedTo]. *)
Theorem duplicate_property_is_linked_and_hinted (fuel : nat) (this : ContextAware)
    (element : DtcProperty) (r : NodeRef) (n : Node) (name : string)
    (previous : Property) :
  DtcProperty_propertyName element = Some (mkPropertyName name) →
  name ≠ "" →
  Forall (λ c, inert c = true) (DtcProperty_children element) →
  heap this !! r = Some n →
  getProperty n name = Some previous →
  let property := mkProperty (nextOid this) element (Some previous) in
  (∃ this' n',
     processChild fuel (PropertyAst element) r this = Normal (tt, this')
     ∧ heap this' !! r = Some n'
     ∧ getProperty n' name = Some property
     ∧ replaces property = Some previous)
  ∧ Property_issues property = Property_issues previous ++ [duplicateHint property previous]
  ∧ (∀ q, q ∈ allReplaced property →
       ∃ successor,
         (successor = property ∨ successor ∈ allReplaced property)
         ∧ replaces successor = Some q
         ∧ {| issues := [DUPLICATE_PROPERTY_NAME];
              astElement := Some (PropertyAst (ast q));
              severity := Hint;
              linkedTo := [PropertyAst (ast successor)];
              tags := Some [Unnecessary];
              templateStrings := [Property_name successor] |} ∈ Property_issues property).
Proof.
  intros Hname Hne Hinert Hr Hprev property.
  split; [| split].
  - eexists _, (addPropertyTo (mkProperty (nextOid this) element None) n).
    simpl. unfold processDtcProperty. rewrite Hname. simpl.
    rewrite bool_decide_eq_false_2 by done. simpl.
    unfold bind at 1. unfold bind at 1. simpl.
    rewrite forEach_inert by done.
    split; [reflexivity |]. simpl.
    split; [unfold addProperty; by rewrite lookup_alter_eq, Hr |].
    split; [| done].
    assert (Property_name (mkProperty (nextOid this) element None) = name) as Hn.
    { unfold Property_name. simpl. by rewrite Hname. }
    rewrite <- Hn at 1. rewrite <- Hn in Hprev.
    by rewrite (addPropertyTo_replaces _ previous).
  - reflexivity.
  - intros q Hq. apply (replacedIssues_chain property q Hq).
Qed.

Lemma duplicate_property_is_linked_and_hinted_witness :
  let previous := mkProperty 0 x_first None in
  let property := mkProperty 1 x_second (Some previous) in
  (∃ this' n',
     processChild 0 (PropertyAst x_second) 0 before_merge = Normal (tt, this')
     ∧ heap this' !! 0 = Some n'
     ∧ getProperty n' "x" = Some property
     ∧ replaces property = Some previous)
  ∧ Property_issues property = Property_issues previous
      ++ [ {| issues := [DUPLICATE_PROPERTY_NAME];
              astElement := Some (PropertyAst x_first);
              severity := Hint;
              linkedTo := [PropertyAst x_second];
              tags := Some [Unnecessary];
              templateStrings := ["x"] |} ]
  ∧ (∀ q, q ∈ allReplaced property →
       ∃ successor,
         (successor = property ∨ successor ∈ allReplaced property)
         ∧ replaces successor = Some q
         ∧ {| issues := [DUPLICATE_PROPERTY_NAME];
              astElement := Some (PropertyAst (ast q));
              severity := Hint;
              linkedTo := [PropertyAst (ast successor)];
              tags := Some [Unnecessary];
              templateStrings := [Property_name successor] |} ∈ Property_issues property).
Proof.
  apply (duplicate_property_is_linked_and_hinted 0 before_merge x_second 0
           {| Node_name := "/"; Node_parent := None; Node_nodes := [];
              Node_properties := [mkProperty 0 x_first None];
              definitons := []; referancesBy := []; roots := []; referances := [] |}
           "x" (mkProperty 0 x_first None)).
  - reflexivity.
  - discriminate.
  - repeat constructor.
  - reflexivity.
  - reflexivity.
Defined.

End PropertyFacts.

(** ** The context builder *)
Module ResolverFacts.
Import Resolver TreeInputs.

(** [find] returns the first element that satisfies the predicate. *)
Lemma find_first {A} (f : A → bool) (before : list A) (x : A) (after : list A) :
  Forall (λ y, f y = false) before →
  f x = true →
  List.find f (before ++ x :: after) = Some x.
Proof.
  induction 1 as [| y before Hy _ IH]; simpl; intros Hx.
  - by rewrite Hx.
  - rewrite Hy. by apply IH.
Qed.

Lemma find_none_Forall {A} (f : A → bool) (l : list A) :
  Forall (λ y, f y = false) l → List.find f l = None.
Proof. induction 1 as [| y l Hy _ IH]; simpl; [done |]. by rewrite Hy. Qed.

(** *** What the two searches of [resolvePath] look for *)

(** The label [l] sits on a [DtcChildNode] with the path [path], and the
    runtime node at that path carries a label with the text [wanted]. *)
Local Notation onCarrier h root wanted l path :=
  (parentNode l = ParentDtcChildNode (Some path%list)
   ∧ ∃ r n ll, getChild h root path = Some r ∧ h !! r = Some n
               ∧ ll ∈ Node_labels n ∧ label ll = wanted).

(** The label [l] sits on a [DtcRefNode] that refers to the label
    [wanted], and whose [pathName] is [pathName]. *)
Local Notation onReferenceTo wanted l pathName :=
  (∃ ref, parentNode l = ParentDtcRefNode (Some ref) pathName
          ∧ LabelRef_label ref = Some wanted).






(** The second recursion makes no progress when the [pathName] of the
    reference node is the segment that is being resolved: the calls nest
    until the stack has no room left, however much room it had. *)
Lemma resolvePath_reference_loop (h : gmap NodeRef Node) (root : NodeRef)
    (first : string) (before : list LabelAssign) (l : LabelAssign)
    (after : list LabelAssign) (labelReferance : option LabelRef) :
  startsWithAmp first = true →
  slice1 first ≠ "" →
  Forall (λ l', labelsChildNodeOf h root (slice1 first) l' = false)
         (allDescendantsLabels h root) →
  allDescendantsLabels h root = before ++ l :: after →
  Forall (λ l', labelsRefNodeOf (slice1 first) l' = false) before →
  labelsRefNodeOf (slice1 first) l = true →
  parentNode l = ParentDtcRefNode labelReferance (Some first) →
  ∀ fuel, resolvePath fuel h root [first] = Throw RangeError.
Proof.
  intros Hamp Hne Hnone Hall Hbefore Hl Hparent fuel.
  induction fuel as [| fuel IH]; [done |].
  simpl. rewrite Hamp. simpl.
  rewrite (find_none_Forall _ _ Hnone). simpl.
  rewrite Hall, (find_first _ before l after Hbefore Hl). simpl.
  rewrite Hparent.
  unfold labelsRefNodeOf in Hl. rewrite Hparent in Hl.
  apply bool_decide_eq_true in Hl. rewrite Hl. simpl.
  rewrite bool_decide_eq_false_2 by done. simpl. exact IH.
Qed.

(** C10. If a URI of the [fileMap] has no cached parse, the constructor
    merges no file: the tree is the root node [/] alone, without
    children, properties or definitions, and the instance has no issue at
    all. *)
Theorem missing_parse_merges_nothing (fuel : nat) (astMap : gmap string CachedParse)
    (fileMap : list string) (uri : string) :
  uri ∈ fileMap →
  astMap !! uri = None →
  ∃ this,
    new fuel astMap fileMap = Normal this
    ∧ rootNode this = 0
    ∧ heap this = {[ 0 := {| Node_name := "/"; Node_parent := None; Node_nodes := [];
                             Node_properties := []; definitons := []; referancesBy := [];
                             roots := []; referances := [] |} ]}
    ∧ _issues this = []
    ∧ ContextAware_issues this = [].
Proof.
  intros Hin Hnone. exists (reportLabelIssues initial).
  split; [| by repeat split].
  unfold new, process.
  assert (existsb (λ tree : string * option DtcBaseNode, negb (bool_decide (is_Some tree.2)))
            (map (λ file, (file, parser_rootDocument <$> astMap !! file)) fileMap) = true)
    as ->.
  { apply existsb_exists. exists (uri, None). split.
    - apply in_map_iff. exists uri. rewrite Hnone. split; [done |].
      by apply list_elem_of_In.
    - reflexivity. }
  reflexivity.
Qed.


(** *** The label pool *)

(** The entry of a label text in the map of l.64-79. *)
Local Notation key item := (label (item_label item)).
Local Notation entry t m :=
  (default [] (snd <$> List.find (λ pr : string * list LabelItem, bool_decide (pr.1 = t)) m)).

Ltac decide_all :=
  repeat (first [ rewrite bool_decide_eq_true_2 by congruence
                | rewrite bool_decide_eq_false_2 by congruence ]; simpl).

Lemma entry_add (t : string) (item : LabelItem) (m : list (string * list LabelItem)) :
  entry t (lablesUsed_add item m)
  = if bool_decide (t = key item) then entry t m ++ [item] else entry t m.
Proof.
  induction m as [| [k g] m IH]; simpl.
  - destruct (decide (t = key item)); decide_all; done.
  - destruct (decide (k = key item)), (decide (t = key item)), (decide (k = t));
      decide_all; try congruence; try done.
  all: rewrite IH; decide_all; done.
Qed.

Lemma entry_fold (t : string) (items : list LabelItem) (m : list (string * list LabelItem)) :
  entry t (fold_left (λ m item, lablesUsed_add item m) items m)
  = entry t m ++ filter (λ item, key item = t) items.
Proof.
  revert m. induction items as [| item items IH]; intros m; simpl.
  - by rewrite app_nil_r.
  - rewrite IH, entry_add, filter_cons.
    case_bool_decide as E1; case_decide as E2; try congruence.
    by rewrite <- app_assoc.
Qed.

Lemma keys_add (item : LabelItem) (m : list (string * list LabelItem)) :
  ((lablesUsed_add item m).*1 = m.*1)
  ∨ ((key item ∉ m.*1) ∧ ((lablesUsed_add item m).*1 = m.*1 ++ [key item])).
Proof.
  induction m as [| [k g] m IH]; simpl.
  - right. split; [apply not_elem_of_nil | done].
  - case_bool_decide as E; [by left |].
    rewrite !fmap_cons. simpl.
    destruct IH as [-> | [Hnot ->]]; [by left |].
    right. split; [| done]. rewrite not_elem_of_cons. split; [congruence | done].
Qed.

Lemma keys_NoDup (items : list LabelItem) (m : list (string * list LabelItem)) :
  NoDup m.*1 → NoDup (fold_left (λ m item, lablesUsed_add item m) items m).*1.
Proof.
  revert m. induction items as [| item items IH]; intros m Hm; simpl; [done |].
  apply IH. destruct (keys_add item m) as [-> | [Hnot ->]]; [done |].
  apply NoDup_app. split; [done |]. split; [| apply NoDup_singleton].
  intros x Hx ->%list_elem_of_singleton. done.
Qed.

(** Every entry holds items of its own key only. *)
Local Notation keyed m :=
  (Forall (λ pr : string * list LabelItem, Forall (λ item, key item = pr.1) pr.2) m).

Lemma keyed_add (item : LabelItem) (m : list (string * list LabelItem)) :
  keyed m → keyed (lablesUsed_add item m).
Proof.
  induction 1 as [| [k g] m Hg Hm IH]; simpl.
  - repeat constructor.
  - case_bool_decide as E; constructor; simpl in *; try done.
    apply Forall_app_2; [done |]. by repeat constructor.
Qed.

Lemma keyed_fold (items : list LabelItem) (m : list (string * list LabelItem)) :
  keyed m → keyed (fold_left (λ m item, lablesUsed_add item m) items m).
Proof.
  revert m. induction items as [| item items IH]; intros m Hm; simpl; [done |].
  by apply IH, keyed_add.
Qed.

(** The issue of an entry names the text of the entry. *)
Lemma labelIssuesOf_keyed (k : string) (g : list LabelItem) (d : Issue ContextIssues) :
  Forall (λ item, key item = k) g →
  d ∈ labelIssuesOf (k, g) →
  templateStrings d = [k].
Proof.
  intros Hg. unfold labelIssuesOf. simpl.
  destruct (bool_decide (1 < length g)); [| by intros ?%elem_of_nil].
  destruct (negb _ || negb _); [| by intros ?%elem_of_nil].
  destruct (last g) as [final |] eqn:El; [| by intros ?%elem_of_nil].
  intros Hd. apply list_elem_of_singleton in Hd. subst d. simpl.
  apply last_Some in El as [g' ->].
  apply Forall_app in Hg as [_ Hf]. inversion Hf as [| ? ? Hk _]. by rewrite Hk.
Qed.

Lemma filter_all {A} (P : A → Prop) `{∀ x, Decision (P x)} (l : list A) :
  Forall P l → filter P l = l.
Proof.
  induction 1 as [| x l Hx _ IH]; [done |]. by rewrite filter_cons_True, IH.
Qed.

Lemma filter_none {A} (P : A → Prop) `{∀ x, Decision (P x)} (l : list A) :
  Forall (λ x, ¬ P x) l → filter P l = [].
Proof.
  induction 1 as [| x l Hx _ IH]; [done |]. by rewrite filter_cons_False.
Qed.

Lemma filter_issues_keep (t : string) (g : list LabelItem) :
  Forall (λ item, key item = t) g →
  filter (λ d : Issue ContextIssues, templateStrings d = [t]) (labelIssuesOf (t, g))
  = labelIssuesOf (t, g).
Proof.
  intros Hg. apply filter_all, Forall_forall.
  intros d Hd. by apply (labelIssuesOf_keyed t g).
Qed.

Lemma filter_issues_drop (t k : string) (g : list LabelItem) :
  k ≠ t →
  Forall (λ item, key item = k) g →
  filter (λ d : Issue ContextIssues, templateStrings d = [t]) (labelIssuesOf (k, g)) = [].
Proof.
  intros Hne Hg. apply filter_none, Forall_forall.
  intros d Hd. rewrite (labelIssuesOf_keyed k g d Hg Hd). congruence.
Qed.

Lemma filter_issues_entry (t : string) (m : list (string * list LabelItem)) :
  NoDup m.*1 →
  keyed m →
  filter (λ d : Issue ContextIssues, templateStrings d = [t]) (flat_map labelIssuesOf m)
  = labelIssuesOf (t, entry t m).
Proof.
  induction m as [| [k g] m IH]; simpl; intros Hnd Hk; [done |].
  apply NoDup_cons in Hnd as [Hnot Hnd]. apply Forall_cons in Hk as [Hg Hk].
  simpl in Hg. rewrite filter_app.
  case_bool_decide as E; simpl.
  - subst k. rewrite filter_issues_keep by done.
    rewrite IH by done.
    assert (entry t m = []) as ->; [| by rewrite app_nil_r].
    destruct (List.find _ m) as [[k' g'] |] eqn:Ef; [| done].
    apply find_some in Ef as [Hin Hk']. simpl in Hk'.
    apply bool_decide_eq_true in Hk'. subst k'.
    exfalso. apply Hnot. apply list_elem_of_fmap. exists (t, g'). split; [done |].
    by apply list_elem_of_In.
  - rewrite filter_issues_drop by done. simpl. by apply IH.
Qed.

(** The issues that concern one label text are those of its group. *)
Lemma labelIssues_of_group (t : string) (items : list LabelItem) :
  filter (λ d : Issue ContextIssues, templateStrings d = [t]) (labelIssues items)
  = labelIssuesOf (t, filter (λ item, key item = t) items).
Proof.
  unfold labelIssues, lablesUsed_of.
  rewrite filter_issues_entry.
  - by rewrite entry_fold.
  - apply keys_NoDup. constructor.
  - apply keyed_fold. constructor.
Qed.




Lemma missing_parse_merges_nothing_witness :
  ∃ this,
    new 0 ∅ ["a.dts"] = Normal this
    ∧ rootNode this = 0
    ∧ heap this = {[ 0 := {| Node_name := "/"; Node_parent := None; Node_nodes := [];
                             Node_properties := []; definitons := []; referancesBy := [];
                             roots := []; referances := [] |} ]}
    ∧ _issues this = []
    ∧ ContextAware_issues this = [].
Proof.
  apply (missing_parse_merges_nothing 0 ∅ ["a.dts"] "a.dts").
  - apply list_elem_of_singleton. reflexivity.
  - reflexivity.
Defined.

End ResolverFacts.

(** ** [interrupts-extended] *)
Module InterruptsExtendedFacts.
Import Types InterruptsExtended InterruptInputs.

Section Check.

Variable Property_parent : Property → Node.
Variable Node_root : Node → Node.
Variable Node_path : Node → list string.
Variable nodeNameOrLabelRef : Node → list ASTBase.
Variable flatNumberValues : option PropertyValues → option (list ASTBase).
Variable resolvePhandleNode : option ASTBase → Node → option Node.
Variable getInterruptInfo : Node → InterruptInfo.

  Local Notation walk := (walk Node_path nodeNameOrLabelRef resolvePhandleNode getInterruptInfo).
  Local Notation additionalTypeCheck :=
  (additionalTypeCheck Property_parent Node_root Node_path nodeNameOrLabelRef
     flatNumberValues resolvePhandleNode getInterruptInfo).

(** A complete tuple: a phandle that resolves to a parent with a
    [#interrupt-cells] property, followed by as many cells as its value. *)
  Local Notation complete root :=
  (λ t : ASTBase * list ASTBase,
     ∃ parent cells,
       resolvePhandleNode (Some t.1) root = Some parent
       ∧ cellsProperty (getInterruptInfo parent) = Some cells
       ∧ value (getInterruptInfo parent) = Some (Z.of_nat (length t.2))).

  Local Notation flat tuples :=
  (flat_map (λ t : ASTBase * list ASTBase, t.1 :: t.2) tuples).

Lemma at_index_middle (before : list ASTBase) (x : ASTBase) (after : list ASTBase) :
  at_index (before ++ x :: after) (Z.of_nat (length before)) = Some x.
Proof.
  unfold at_index. rewrite bool_decide_eq_true_2 by lia.
  rewrite Nat2Z.id. by rewrite list_lookup_middle.
Qed.

(** The loop passes over complete tuples, one per iteration. *)
Lemma walk_complete (property : Property) (root : Node)
    (tuples : list (ASTBase * list ASTBase)) :
  Forall (complete root) tuples →
  ∀ (fuel : nat) (before suffix : list ASTBase) (issues : list (Issue StandardTypeIssue)),
    walk (length tuples + fuel) property root (before ++ flat tuples ++ suffix)
      (Z.of_nat (length before)) issues
    = walk fuel property root (before ++ flat tuples ++ suffix)
        (Z.of_nat (length (before ++ flat tuples))) issues.
Proof.
  induction 1 as [| [phandle cells] tuples (parent & cp & Hres & Hcp & Hval) _ IH];
    intros fuel before suffix issues.
  - simpl. by rewrite app_nil_r.
  - simpl in *.
    rewrite bool_decide_eq_true_2 by (rewrite !length_app; simpl; lia).
    rewrite at_index_middle, Hres, Hcp, Hval.
    rewrite bool_decide_eq_false_2
      by (rewrite !length_app; simpl; rewrite !length_app; lia).
    assert (before ++ phandle :: (cells ++ flat tuples) ++ suffix
            = (before ++ phandle :: cells) ++ flat tuples ++ suffix) as ->.
    { rewrite <- ?app_assoc. simpl. by rewrite <- ?app_assoc. }
    assert (Z.of_nat (length before) + (Z.of_nat (length cells) + 1)
            = Z.of_nat (length (before ++ phandle :: cells)))%Z as ->.
    { rewrite length_app. simpl. lia. }
    rewrite IH. do 2 f_equal.
    rewrite <- ?app_assoc. simpl. by rewrite <- ?app_assoc.
Qed.

(** C9. The check walks the flattened values as tuples of a phandle
    followed by as many cells as the [#interrupt-cells] value of the
    parent that the phandle resolves to.  After any number of complete
    tuples: at the end of the values it returns what it has; on a
    phandle that does not resolve it adds
    [INTERRUPTS_PARENT_NODE_NOT_FOUND] on the phandle; on a parent
    without a [#interrupt-cells] property it adds
    [PROPERTY_REQUIRES_OTHER_PROPERTY_IN_NODE] on the property; and on a
    tuple with fewer cells left than the parent asks for it adds
    [INTERRUPTS_VALUE_CELL_MISS_MATCH] on the phandle. *)
Theorem interrupts_extended_tuples (fuel : nat) (property : Property)
    (values : list ASTBase) (tuples : list (ASTBase * list ASTBase))
    (suffix : list ASTBase) :
  let root := Node_root (Property_parent property) in
  let warnings :=
    ignoredWarning property (getProperty (Property_parent property) "interrupts")
    ++ ignoredWarning property (getProperty (Property_parent property) "interrupt-parent")
  in
  flatNumberValues (DtcProperty_values (ast property)) = Some values →
  values ≠ [] →
  values = flat tuples ++ suffix →
  Forall (complete root) tuples →
  length tuples < fuel →
  (suffix = [] → additionalTypeCheck fuel property = Normal warnings)
  ∧ (∀ phandle more,
       suffix = phandle :: more →
       resolvePhandleNode (Some phandle) root = None →
       additionalTypeCheck fuel property
       = Normal (warnings ++
           [genIssue [INTERRUPTS_PARENT_NODE_NOT_FOUND] (Some phandle) Error [] None []]))
  ∧ (∀ phandle more parent,
       suffix = phandle :: more →
       resolvePhandleNode (Some phandle) root = Some parent →
       cellsProperty (getInterruptInfo parent) = None →
       additionalTypeCheck fuel property
       = Normal (warnings ++
           [genIssue [PROPERTY_REQUIRES_OTHER_PROPERTY_IN_NODE]
              (Some (PropertyAst (ast property))) Error
              (nodeNameOrLabelRef (node (getInterruptInfo parent))) (Some [])
              [Property_name property; "#interrupt-cells";
               "/" +:+ joinSlash (tail (Node_path (node (getInterruptInfo parent))))]]))
  ∧ (∀ phandle more parent cells v,
       suffix = phandle :: more →
       resolvePhandleNode (Some phandle) root = Some parent →
       cellsProperty (getInterruptInfo parent) = Some cells →
       value (getInterruptInfo parent) = Some v →
       (Z.of_nat (length more) < v)%Z →
       additionalTypeCheck fuel property
       = Normal (warnings ++
           [genIssue [INTERRUPTS_VALUE_CELL_MISS_MATCH] (Some phandle) Error
              [PropertyAst (ast cells)] (Some []) [Property_name property; pretty v]])).
Proof.
  intros root warnings Hflat Hne Hvalues Hcomplete Hfuel.
  assert (∀ issues,
            additionalTypeCheck fuel property = issues ↔
            walk (fuel - length tuples) property root ([] ++ flat tuples ++ suffix)
              (Z.of_nat (length ([] ++ flat tuples))) warnings = issues) as Hrun.
  { intros issues. unfold InterruptsExtended.additionalTypeCheck. rewrite Hflat.
    destruct values as [| v0 values']; [done |].
    fold root. fold warnings.
    replace fuel with (length tuples + (fuel - length tuples)) at 1 by lia.
    rewrite Hvalues.
    by rewrite <- (walk_complete property root tuples Hcomplete _ [] suffix warnings). }
  destruct (fuel - length tuples) as [| fuel'] eqn:Efuel; [lia |].
  simpl in Hrun.
  split; [| split; [| split]].
  - intros ->. apply Hrun. simpl.
    rewrite bool_decide_eq_false_2 by (rewrite app_nil_r; lia). done.
  - intros phandle more -> Hres. apply Hrun. simpl.
    rewrite bool_decide_eq_true_2 by (rewrite length_app; simpl; lia).
    by rewrite at_index_middle, Hres.
  - intros phandle more parent -> Hres Hcp. apply Hrun. simpl.
    rewrite bool_decide_eq_true_2 by (rewrite length_app; simpl; lia).
    by rewrite at_index_middle, Hres, Hcp.
  - intros phandle more parent cells v -> Hres Hcp Hv Hlt. apply Hrun. simpl.
    rewrite bool_decide_eq_true_2 by (rewrite length_app; simpl; lia).
    rewrite at_index_middle, Hres, Hcp, Hv.
    rewrite bool_decide_eq_true_2 by (rewrite length_app; simpl; lia).
    done.
Qed.

End Check.

Local Notation check :=
  (additionalTypeCheck (λ _, device) (λ n, n) (λ _, ["/"; "soc"]) (λ _, [])
     flatten resolve info).

Lemma interrupts_extended_tuples_witness :
  check 2 (interrupts_of [pic_ref; NumberValue 1; NumberValue 2]) = Normal []
  ∧ check 2 (interrupts_of [pic_ref; NumberValue 1; NumberValue 2; gone_ref; NumberValue 5])
    = Normal [genIssue [INTERRUPTS_PARENT_NODE_NOT_FOUND] (Some (phandle "gone"))
                Error [] None []]
  ∧ check 1 (interrupts_of [plain_ref; NumberValue 1])
    = Normal [genIssue [PROPERTY_REQUIRES_OTHER_PROPERTY_IN_NODE]
                (Some (PropertyAst (ast (interrupts_of [plain_ref; NumberValue 1]))))
                Error [] (Some []) ["interrupts-extended"; "#interrupt-cells"; "/soc"]]
  ∧ check 2 (interrupts_of [pic_ref; NumberValue 1; NumberValue 2; pic_ref; NumberValue 3])
    = Normal [genIssue [INTERRUPTS_VALUE_CELL_MISS_MATCH] (Some (phandle "pic")) Error
                [PropertyAst (ast cells_property)] (Some [])
                ["interrupts-extended"; "2"]].
Proof.
  assert (∀ root, Forall (λ t : ASTBase * list ASTBase,
            ∃ parent cells,
              resolve (Some t.1) root = Some parent
              ∧ cellsProperty (info parent) = Some cells
              ∧ value (info parent) = Some (Z.of_nat (length t.2)))
            [(phandle "pic", [cell 1; cell 2])]) as Hpic.
  { intros root. repeat constructor. by exists pic, cells_property. }
  split; [| split; [| split]].
  - apply (proj1 (interrupts_extended_tuples (λ _, device) (λ n, n) (λ _, ["/"; "soc"])
                    (λ _, []) flatten resolve info 2
                    (interrupts_of [pic_ref; NumberValue 1; NumberValue 2])
                    [phandle "pic"; cell 1; cell 2]
                    [(phandle "pic", [cell 1; cell 2])] []
                    eq_refl ltac:(discriminate) eq_refl (Hpic _) ltac:(simpl; lia))).
    reflexivity.
  - apply (proj1 (proj2 (interrupts_extended_tuples (λ _, device) (λ n, n)
                    (λ _, ["/"; "soc"]) (λ _, []) flatten resolve info 2
                    (interrupts_of [pic_ref; NumberValue 1; NumberValue 2; gone_ref;
                                    NumberValue 5])
                    [phandle "pic"; cell 1; cell 2; phandle "gone"; cell 5]
                    [(phandle "pic", [cell 1; cell 2])] [phandle "gone"; cell 5]
                    eq_refl ltac:(discriminate) eq_refl (Hpic _) ltac:(simpl; lia)))
             (phandle "gone") [cell 5]); reflexivity.
  - apply (proj1 (proj2 (proj2 (interrupts_extended_tuples (λ _, device) (λ n, n)
                    (λ _, ["/"; "soc"]) (λ _, []) flatten resolve info 1
                    (interrupts_of [plain_ref; NumberValue 1])
                    [phandle "plain"; cell 1] [] [phandle "plain"; cell 1]
                    eq_refl ltac:(discriminate) eq_refl ltac:(constructor)
                    ltac:(simpl; lia))))
             (phandle "plain") [cell 1] plain); reflexivity.
  - apply (proj2 (proj2 (proj2 (interrupts_extended_tuples (λ _, device) (λ n, n)
                    (λ _, ["/"; "soc"]) (λ _, []) flatten resolve info 2
                    (interrupts_of [pic_ref; NumberValue 1; NumberValue 2; pic_ref;
                                    NumberValue 3])
                    [phandle "pic"; cell 1; cell 2; phandle "pic"; cell 3]
                    [(phandle "pic", [cell 1; cell 2])] [phandle "pic"; cell 3]
                    eq_refl ltac:(discriminate) eq_refl (Hpic _) ltac:(simpl; lia))))
             (phandle "pic") [cell 3] pic cells_property 2%Z); try reflexivity.
Defined.

End InterruptsExtendedFacts.

(** * Further properties *)

(** ** The validator, beyond the claims *)
Module TypesMore.
Import Types Inputs MoreInputs CompletionItems.

(** X1. The class of a written value is never [EMPTY] and never
    [STRINGLIST]: a slot that expects only [EMPTY] accepts the profile of
    a property without values and no value of a property with values. *)
Theorem written_values_are_never_empty :
  (∀ value, propertyValueToPropetyType value ≠ EMPTY
            ∧ propertyValueToPropetyType value ≠ STRINGLIST)
  ∧ (∀ oid n ls cs r,
       Forall (λ t, typeIsValid [EMPTY] t = true)
         (propertyValuesToPropetyType (mkProperty oid (mkDtcProperty n None ls cs) r)))
  ∧ (∀ oid n vs ls cs r,
       Forall (λ t, typeIsValid [EMPTY] t = false)
         (propertyValuesToPropetyType (mkProperty oid (mkDtcProperty n (Some vs) ls cs) r))).
Proof.
  assert (∀ value, propertyValueToPropetyType value ≠ EMPTY
                   ∧ propertyValueToPropetyType value ≠ STRINGLIST) as Hnever.
  { intros [[v] |]; [| done]. destruct v; simpl; try done.
    repeat case_bool_decide; done. }
  split; [exact Hnever |]. split.
  - intros. by repeat constructor.
  - intros oid n [vs] ls cs r. simpl. apply Forall_forall.
    intros t Ht. apply list_elem_of_fmap in Ht as (v & -> & _).
    destruct (Hnever v) as [H1 _].
    destruct (propertyValueToPropetyType v); done.
Qed.

(** X2. A slot that is widened keeps accepting what it accepted. *)
Theorem typeIsValid_widening (expected wider : list PropetyType) (t : PropetyType) :
  expected ⊆ wider →
  typeIsValid expected t = true →
  typeIsValid wider t = true.
Proof.
  intros Hsub. rewrite !TypesFacts.typeIsValid_spec.
  intros [H | [[H1 H2] | [H1 H2]]]; [left | right; left | right; right]; auto.
Qed.

Lemma typeIsValid_widening_witness :
  typeIsValid [U32; PROP_ENCODED_ARRAY; STRING] U64 = true.
Proof.
  apply (typeIsValid_widening [PROP_ENCODED_ARRAY] [U32; PROP_ENCODED_ARRAY; STRING] U64).
  - intros x ->%list_elem_of_singleton. repeat constructor.
  - reflexivity.
Defined.

Section Engine.

Context {RegExp : Type}.
Variable RegExp_new : string → option RegExp.
Variable String_match : string → RegExp → bool.

(** X3. A binding with one slot that is not a list, does not take
    [STRINGLIST] and expects something other than [EMPTY] answers a
    property of two or more values with the one diagnostic
    [EXPECTED_ONE], placed on the values; nothing else is checked. *)
Theorem more_than_one_value (this : PropertyNodeType) (runtime : Runtime) (node : Node)
    (n : string) (property : Property) (type0 : TypeConfig) (vs : PropertyValues) :
  type this = [type0] →
  list_flag this = false →
  STRINGLIST ∉ types type0 →
  (∃ tt, tt ∈ types type0 ∧ tt ≠ EMPTY) →
  required this node ≠ st_ommited →
  DtcProperty_values (ast property) = Some vs →
  1 < length (PropertyValues_values vs) →
  validateProperty RegExp_new String_match this runtime node n (Some property)
  = Normal [genIssue [EXPECTED_ONE] (Some (PropertyValuesAst vs)) Error [] (Some [])
              [Property_name property]].
Proof.
  intros Htype Hlist Hsl (tt & Hin & Hne) Hreq Hvs Hlen.
  unfold validateProperty. rewrite Htype.
  assert (validateSingle this type0 property (propertyValuesToPropetyType property)
          = [genIssue [EXPECTED_ONE] (Some (PropertyValuesAst vs)) Error [] (Some [])
               [Property_name property]]) as ->.
  { unfold validateSingle.
    destruct (existsb _ (types type0)) eqn:E1.
    { apply TypesFacts.existsb_eq_elem in E1. done. }
    rewrite Hlist.
    unfold propertyValuesToPropetyType, valuesOrAst. rewrite Hvs.
    rewrite length_map, bool_decide_eq_true_2 by done.
    assert (existsb (λ tt, negb (bool_decide (tt = EMPTY))) (types type0) = true) as ->.
    { apply existsb_exists. exists tt. split; [by apply list_elem_of_In |].
      by rewrite bool_decide_eq_false_2. }
    reflexivity. }
  simpl. by destruct (required this node).
Qed.


(** When the type checks of a single slot pass. *)
Lemma validateSingle_nil (this : PropertyNodeType (RegExp := RegExp))
    (type0 : TypeConfig)
    (property : Property) :
  validateSingle this type0 property [] = [].
Proof.
  unfold validateSingle. simpl.
  destruct (existsb _ (types type0)); [done |].
  by destruct (list_flag this).
Qed.

Lemma validateSingle_one_accepted (this : PropertyNodeType (RegExp := RegExp))
    (type0 : TypeConfig) (property : Property) (t : PropetyType) :
  list_flag this = false →
  STRINGLIST ∉ types type0 →
  typeIsValid (types type0) t = true →
  validateSingle this type0 property [t] = [].
Proof.
  intros Hlist Hsl Hvalid. unfold validateSingle.
  destruct (existsb _ (types type0)) eqn:E1.
  { apply TypesFacts.existsb_eq_elem in E1. done. }
  rewrite Hlist. simpl. unfold checkType. by rewrite Hvalid.
Qed.

(** X4. A property whose list of values is there but empty passes the
    type checks of every one-slot binding; when the binding has
    enumerated values and its slot takes [STRING], the enumeration test
    then reads the first value, which is not there, and
    [validateProperty] throws a [TypeError]. *)
Theorem empty_values_then_enumeration_throws (this : PropertyNodeType)
    (runtime : Runtime) (node : Node) (n : string) (property : Property)
    (type0 : TypeConfig) :
  type this = [type0] →
  STRING ∈ types type0 →
  values this property ≠ [] →
  additionalTypeCheck this = None →
  required this node ≠ st_ommited →
  DtcProperty_values (ast property) = Some (mkPropertyValues []) →
  validateProperty RegExp_new String_match this runtime node n (Some property)
  = Throw TypeError.
Proof.
  intros Htype Hstring Hvalues Hadd Hreq Hvs.
  unfold validateProperty. rewrite Htype.
  unfold propertyValuesToPropetyType. rewrite Hvs. simpl.
  rewrite validateSingle_nil. simpl.
  unfold validateEnum. rewrite Hadd. simpl.
  rewrite (proj2 (TypesFacts.existsb_eq_elem STRING (types type0)) Hstring).
  destruct (values this property) as [| v vs] eqn:Ev; [done |]. simpl.
  unfold firstValue, valueAt. rewrite Hvs. simpl.
  by destruct (required this node).
Qed.

(** X5. For a one-slot binding that is not a list and does not take
    [STRINGLIST], and whose slot has an [EXPECTED_*] kind to report, the
    type checks are silent in exactly three cases: there is no value
    at all; there is one value and the slot accepts it; or there are
    several values and the slot expects nothing but [EMPTY]. *)
Theorem single_slot_is_silent_iff (this : PropertyNodeType (RegExp := RegExp))
    (type0 : TypeConfig) (property : Property) (propTypes : list PropetyType) :
  list_flag this = false →
  STRINGLIST ∉ types type0 →
  flat_map expectedIssue (types type0) ≠ [] →
  validateSingle this type0 property propTypes = []
  ↔ propTypes = []
    ∨ (∃ t, propTypes = [t] ∧ typeIsValid (types type0) t = true)
    ∨ (1 < length propTypes ∧ Forall (λ tt, tt = EMPTY) (types type0)).
Proof.
  intros Hlist Hsl Hkinds. unfold validateSingle.
  destruct (existsb _ (types type0)) eqn:E1.
  { apply TypesFacts.existsb_eq_elem in E1. done. }
  rewrite Hlist.
  destruct propTypes as [| t [| t' rest]].
  - simpl. split; [by left | done].
  - simpl. unfold checkType.
    destruct (typeIsValid (types type0) t) eqn:Ev.
    + split; [| done]. intros _. right. left. by exists t.
    + rewrite bool_decide_eq_false_2.
      2:{ intros Hl. apply Hkinds. by apply nil_length_inv. }
      split; [done |].
      intros [? | [(t0 & [= <-] & Ht0) | [Hlen _]]];
        [done | congruence | simpl in Hlen; lia].
  - rewrite bool_decide_eq_true_2 by (simpl; lia). simpl.
    destruct (existsb (λ tt, negb (bool_decide (tt = EMPTY))) (types type0)) eqn:E2.
    + split; [done |].
      intros [? | [(t0 & ? & _) | [_ Hall]]]; [done | done |].
      apply existsb_exists in E2 as (tt & Hin & Htt).
      rewrite Forall_forall in Hall.
      rewrite (Hall tt) in Htt by (by apply list_elem_of_In).
      by rewrite bool_decide_eq_true_2 in Htt.
    + split; [| done]. intros _. right. right. split; [simpl; lia |].
      apply Forall_forall. intros tt Hin.
      destruct (decide (tt = EMPTY)) as [| Hne]; [done |].
      exfalso.
      assert (existsb (λ tt, negb (bool_decide (tt = EMPTY))) (types type0) = true);
        [| congruence].
      apply existsb_exists. exists tt. split; [by apply list_elem_of_In |].
      by rewrite bool_decide_eq_false_2.
Qed.

(** X6. A binding keyed by a pattern is silent on a node none of whose
    properties matches the pattern, whatever [required] says: such a
    binding never reports a missing property. *)
Theorem pattern_binding_without_match (this : PropertyNodeType) (runtime : Runtime)
    (node : Node) (re : RegExp) :
  name this = inr re →
  Forall (λ p, String_match (Property_name p) re = false) (Node_properties node) →
  validate RegExp_new String_match this runtime node = Normal [].
Proof.
  intros Hname Hnone. unfold validate. rewrite Hname.
  assert (filter (λ p, getNameMatch String_match this (Property_name p) = true)
            (Node_properties node) = []) as ->; [| done].
  induction Hnone as [| p ps Hp _ IH]; [done |].
  rewrite filter_cons_False; [exact IH |].
  unfold getNameMatch. rewrite Hname, Hp. done.
Qed.

(** What [flatMap] does with calls that may throw. *)
Lemma flatMapC_normal {A B} (f : A → Completion (list B)) (g : A → list B) (l : list A) :
  Forall (λ a, f a = Normal (g a)) l →
  flatMapC f l = Normal (flat_map g l).
Proof.
  induction 1 as [| a l Ha _ IH]; [done |]. simpl. by rewrite Ha, IH.
Qed.

Lemma flatMapC_throw {A B} (f : A → Completion (list B)) (g : A → list B)
    (before : list A) (a : A) (after : list A) (e : JsError) :
  Forall (λ a, f a = Normal (g a)) before →
  f a = Throw e →
  flatMapC f (before ++ a :: after) = Throw e.
Proof.
  induction 1 as [| b before Hb _ IH]; simpl; intros Ha; [by rewrite Ha |].
  by rewrite Hb, IH.
Qed.

(** X7. [NodeType.getIssue] concatenates the diagnostics of the
    bindings in their order; the first binding whose validation throws
    makes [getIssue] throw, and the diagnostics of all the bindings of
    the node are lost with it. *)
Theorem getIssue_all_or_nothing (this : NodeType) (runtime : Runtime)
    (found : PropertyNodeType → list (Issue StandardTypeIssue)) :
  (Forall (λ p, validate RegExp_new String_match p runtime (NodeType_node this)
                = Normal (found p)) (NodeType_properties this) →
   getIssue RegExp_new String_match this runtime
   = Normal (flat_map found (NodeType_properties this)))
  ∧ (∀ before p after e,
       NodeType_properties this = before ++ p :: after →
       Forall (λ p, validate RegExp_new String_match p runtime (NodeType_node this)
                    = Normal (found p)) before →
       validate RegExp_new String_match p runtime (NodeType_node this) = Throw e →
       getIssue RegExp_new String_match this runtime = Throw e).
Proof.
  split.
  - intros Hall. by apply flatMapC_normal.
  - intros before p after e Hps Hbefore Hp. unfold getIssue. rewrite Hps.
    by apply (flatMapC_throw _ found).
Qed.

(** The enumeration test on a text, when every pattern compiles. *)
Lemma someEnumMatches_compiled (text : string) (vs : list string)
    (compiled : string → RegExp) :
  Forall (λ v, RegExp_new (enum_pattern v) = Some (compiled v)) vs →
  someEnumMatches RegExp_new String_match (Some (StringValue text)) vs
  = Normal (existsb (λ v, String_match text (compiled v)) vs).
Proof.
  induction 1 as [| v vs Hv _ IH]; [done |].
  simpl. unfold enum_pattern in Hv. rewrite Hv.
  destruct (String_match text (compiled v)); [done | exact IH].
Qed.

(** X8. The enumeration of a one-[STRING] binding: for a property
    with one string value, when the patterns of the enumerated values
    compile, validation is silent if the pattern of some enumerated
    value matches the text of the value, and otherwise returns the one
    diagnostic [EXPECTED_ENUM] on the value, which names all the
    enumerated values. *)
Theorem enumeration_of_one_string (this : PropertyNodeType) (runtime : Runtime)
    (node : Node) (n : string) (property : Property) (type0 : TypeConfig)
    (text : string) (compiled : string → RegExp) :
  type this = [type0] →
  list_flag this = false →
  STRINGLIST ∉ types type0 →
  STRING ∈ types type0 →
  additionalTypeCheck this = None →
  required this node ≠ st_ommited →
  DtcProperty_values (ast property)
  = Some (mkPropertyValues [Some (mkPropertyValue (StringValue text))]) →
  values this property ≠ [] →
  Forall (λ v, RegExp_new (enum_pattern v) = Some (compiled v)) (values this property) →
  validateProperty RegExp_new String_match this runtime node n (Some property)
  = Normal (if existsb (λ v, String_match text (compiled v)) (values this property)
            then []
            else [genIssue [EXPECTED_ENUM] (Some (ValueAst (StringValue text))) Error []
                    (Some []) [joinQuoted (values this property)]]).
Proof.
  intros Htype Hlist Hsl Hstring Hadd Hreq Hvs Hne Hcompiled.
  unfold validateProperty. rewrite Htype.
  assert (validateSingle this type0 property (propertyValuesToPropetyType property) = [])
    as ->.
  { unfold propertyValuesToPropetyType. rewrite Hvs. simpl.
    apply validateSingle_one_accepted; [done | done |].
    apply TypesFacts.typeIsValid_spec. by left. }
  simpl. unfold validateEnum. rewrite Hadd. simpl.
  rewrite (proj2 (TypesFacts.existsb_eq_elem STRING (types type0)) Hstring).
  rewrite bool_decide_eq_false_2.
  2:{ intros Hl. by apply Hne, nil_length_inv. }
  simpl. unfold firstValue, valueAt. rewrite Hvs. simpl.
  rewrite (someEnumMatches_compiled text _ compiled Hcompiled). simpl.
  destruct (existsb _ (values this property)); by destruct (required this node).
Qed.

(** X9. [getPropertyCompletionItems] looks at the slot whose index is
    the number of values written so far: once a property has as many
    values as its binding has slots, no completion is offered; and
    whenever completions are offered, there is one for each enumerated
    value. *)
Theorem completions_stop_at_last_slot (this : PropertyNodeType (RegExp := RegExp))
    (property : Property) :
  (∀ vs, DtcProperty_values (ast property) = Some vs →
         (length (type this) ≤ length (PropertyValues_values vs))%nat →
         getPropertyCompletionItems this property = [])
  ∧ (getPropertyCompletionItems this property = []
     ∨ length (getPropertyCompletionItems this property)
       = length (values this property)).
Proof.
  split.
  - intros vs Hvs Hlen. unfold getPropertyCompletionItems. rewrite Hvs.
    by rewrite (lookup_ge_None_2 (type this) _ Hlen).
  - unfold getPropertyCompletionItems.
    repeat match goal with
           | |- context [if ?b then _ else _] => destruct b
           end;
      try (by left); right; by rewrite length_map.
Qed.

End Engine.

Lemma more_than_one_value_witness :
  validateProperty plain_RegExp_new plain_String_match (requirement_binding st_optional)
    runtime0 (node_with [pair_u32_u32]) "pair" (Some pair_u32_u32)
  = Normal [genIssue [EXPECTED_ONE]
              (Some (PropertyValuesAst
                 (mkPropertyValues [value_of (ArrayValues [NumberValue 1]);
                                    value_of (ArrayValues [NumberValue 2])])))
              Error [] (Some []) ["pair"]].
Proof.
  apply (more_than_one_value plain_RegExp_new plain_String_match
           (requirement_binding st_optional) runtime0 (node_with [pair_u32_u32]) "pair"
           pair_u32_u32 (mkTypeConfig [PROP_ENCODED_ARRAY])).
  - reflexivity.
  - reflexivity.
  - by intros ?%list_elem_of_singleton.
  - exists PROP_ENCODED_ARRAY. split; [repeat constructor | done].
  - discriminate.
  - reflexivity.
  - simpl. lia.
Defined.


Lemma empty_values_then_enumeration_throws_witness :
  validateProperty plain_RegExp_new plain_String_match status_binding runtime0
    (node_with []) "status" (Some (property_of 0 "status" (Some [])))
  = Throw TypeError.
Proof.
  apply (empty_values_then_enumeration_throws plain_RegExp_new plain_String_match
           status_binding runtime0 (node_with []) "status"
           (property_of 0 "status" (Some [])) (mkTypeConfig [STRING; EMPTY])).
  - reflexivity.
  - repeat constructor.
  - discriminate.
  - reflexivity.
  - discriminate.
  - reflexivity.
Defined.

Lemma single_slot_is_silent_iff_witness :
  validateSingle (requirement_binding (RegExp := unit) st_optional)
    (mkTypeConfig [PROP_ENCODED_ARRAY]) reg_property [U64] = [].
Proof.
  apply (single_slot_is_silent_iff (requirement_binding st_optional)
           (mkTypeConfig [PROP_ENCODED_ARRAY]) reg_property [U64]).
  - reflexivity.
  - by intros ?%list_elem_of_singleton.
  - discriminate.
  - right. left. by exists U64.
Defined.

(** A required binding keyed by a pattern that no name matches. *)
Lemma pattern_binding_without_match_witness :
  validate (RegExp := unit) plain_RegExp_new plain_String_match
    {| name := inr (); type := [mkTypeConfig [U32]]; required := λ _, st_required;
       def := None; values := λ _, []; additionalTypeCheck := None; list_flag := false |}
    runtime0 (node_with [reg_property])
  = Normal [].
Proof.
  apply (pattern_binding_without_match plain_RegExp_new plain_String_match _ runtime0
           (node_with [reg_property]) ()).
  - reflexivity.
  - repeat constructor.
Defined.

Lemma getIssue_all_or_nothing_witness :
  getIssue plain_RegExp_new plain_String_match
    {| NodeType_node := node_with [status_empty];
       NodeType_properties := [requirement_binding st_required; status_binding] |} runtime0
  = Throw TypeError.
Proof.
  apply (proj2 (getIssue_all_or_nothing plain_RegExp_new plain_String_match
                  {| NodeType_node := node_with [status_empty];
                     NodeType_properties :=
                       [requirement_binding st_required; status_binding] |}
                  runtime0
                  (λ _, [genIssue [REQUIRED] (Some soc_ast) Error [] (Some []) ["reg"]]))
           [requirement_binding st_required] status_binding [] TypeError).
  - reflexivity.
  - repeat constructor.
  - reflexivity.
Defined.

Lemma enumeration_of_one_string_witness :
  validateProperty source_RegExp_new okay_String_match status_string_binding runtime0
    (node_with [status_okay]) "status" (Some status_okay)
  = Normal []
  ∧ validateProperty source_RegExp_new okay_String_match status_string_binding runtime0
      (node_with [status_on]) "status" (Some status_on)
    = Normal [genIssue [EXPECTED_ENUM]
                (Some (ValueAst (StringValue (dquote +:+ "on" +:+ dquote)))) Error []
                (Some []) ["'okay' or 'disabled'"]].
Proof.
  split.
  - apply (enumeration_of_one_string source_RegExp_new okay_String_match
             status_string_binding runtime0 (node_with [status_okay]) "status" status_okay
             (mkTypeConfig [STRING]) (dquote +:+ "okay" +:+ dquote) enum_pattern);
      try reflexivity; try discriminate.
    + by intros ?%list_elem_of_singleton.
    + repeat constructor.
    + repeat constructor.
  - apply (enumeration_of_one_string source_RegExp_new okay_String_match
             status_string_binding runtime0 (node_with [status_on]) "status" status_on
             (mkTypeConfig [STRING]) (dquote +:+ "on" +:+ dquote) enum_pattern);
      try reflexivity; try discriminate.
    + by intros ?%list_elem_of_singleton.
    + repeat constructor.
    + repeat constructor.
Defined.

Lemma completions_stop_at_last_slot_witness :
  getPropertyCompletionItems (status_string_binding (RegExp := unit)) status_okay = [].
Proof.
  apply (proj1 (completions_stop_at_last_slot status_string_binding status_okay)
           (mkPropertyValues [value_of (StringValue (dquote +:+ "okay" +:+ dquote))])).
  - reflexivity.
  - simpl. lia.
Defined.

End TypesMore.

(** ** The runtime property and the context builder, beyond the claims *)
Module ResolverMore.
Import Resolver TreeInputs MoreTreeInputs.

(** X10. [replacedIssues] reports the replaced definitions oldest
    first, one diagnostic for each: the AST elements of the diagnostics
    are those of [allReplaced] in reverse. *)
Theorem replacedIssues_oldest_first (p : Property) :
  map astElement (replacedIssues p)
  = reverse (map (λ q, Some (PropertyAst (ast q))) (allReplaced p)).
Proof.
  induction p as [oid a | oid a r IH] using Property_chain_ind; simpl; [done |].
  rewrite map_app, IH, reverse_cons. reflexivity.
Qed.

(** X11. A path that [resolvePath] returns is never empty, and its
    first segment is not a label reference. *)
Theorem resolvePath_result_is_absolute (fuel : nat) (h : gmap NodeRef Node)
    (root : NodeRef) (path resolved : list string) :
  resolvePath fuel h root path = Normal (Some resolved) →
  ∃ first rest, resolved = first :: rest ∧ startsWithAmp first = false.
Proof.
  revert path. induction fuel as [| fuel IH]; intros path; [done |].
  simpl. destruct path as [| first rest]; [done |].
  destruct (startsWithAmp first) eqn:Eamp; simpl.
  - destruct (parentNode <$> List.find _ (allDescendantsLabels h root))
      as [[[childPath |] | lr pn |] |].
    1: by apply IH.
    all: destruct (parentNode <$> List.find (labelsRefNodeOf _) _)
           as [[cp | lr' [pn' |] |] |]; try done.
    all: destruct (truthy _); try done; by apply IH.
  - intros [= <-]. by exists first, rest.
Qed.

Lemma resolvePath_result_is_absolute_witness :
  ∃ first rest, ["/"; "n"; "x"] = first :: rest ∧ startsWithAmp first = false.
Proof.
  apply (resolvePath_result_is_absolute 2 tree 0 ["&a"; "x"] ["/"; "n"; "x"]).
  reflexivity.
Defined.

(** X12. When the label sought is found on no child node, and the
    first label whose parent is a reference node to that label has the
    segment itself for [pathName], [resolvePath] calls itself with the
    same segment again and again until the call stack overflows: whatever
    room the stack has, and whatever follows the segment in the path, the
    call returns neither a path nor [undefined] but throws a
    [RangeError]. *)
Theorem reference_branch_never_returns (h : gmap NodeRef Node) (root : NodeRef)
    (first : string) (rest : list string) (before : list LabelAssign) (l : LabelAssign)
    (after : list LabelAssign) (labelReferance : option LabelRef) :
  startsWithAmp first = true →
  slice1 first ≠ "" →
  Forall (λ l', labelsChildNodeOf h root (slice1 first) l' = false)
         (allDescendantsLabels h root) →
  allDescendantsLabels h root = before ++ l :: after →
  Forall (λ l', labelsRefNodeOf (slice1 first) l' = false) before →
  labelsRefNodeOf (slice1 first) l = true →
  parentNode l = ParentDtcRefNode labelReferance (Some first) →
  ∀ fuel, resolvePath fuel h root (first :: rest) = Throw RangeError.
Proof.
  intros Hamp Hne Hnone Hall Hbefore Hl Hparent [| fuel]; [done |].
  simpl. rewrite Hamp. simpl.
  rewrite (ResolverFacts.find_none_Forall _ _ Hnone). simpl.
  rewrite Hall, (ResolverFacts.find_first _ before l after Hbefore Hl). simpl.
  rewrite Hparent.
  pose proof Hl as Hl'. unfold labelsRefNodeOf in Hl'. rewrite Hparent in Hl'.
  apply bool_decide_eq_true in Hl'. rewrite Hl'. simpl.
  rewrite bool_decide_eq_false_2 by done. simpl.
  by apply (ResolverFacts.resolvePath_reference_loop h root first before l after
              labelReferance).
Qed.

Lemma reference_branch_never_returns_witness :
  resolvePath 9 tree 0 ["&b"; "x"] = Throw RangeError.
Proof.
  apply (reference_branch_never_returns tree 0 "&b" ["x"] [label_a] label_foo []
           (Some (mkLabelRef (Some "b")))).
  - reflexivity.
  - discriminate.
  - repeat constructor.
  - reflexivity.
  - repeat constructor.
  - reflexivity.
  - reflexivity.
Defined.

(** X13. The label pool reports a text if and only if it is borne by
    more than one label and these labels are not all owned by one and the
    same node; labels that all belong to one and the same property, or
    to no owner, are reported. *)
Theorem label_text_is_reported_iff (items : list LabelItem) (t : string) :
  let group := filter (λ item, label (item_label item) = t) items in
  filter (λ d : Issue ContextIssues, templateStrings d = [t]) (labelIssues items) ≠ []
  ↔ 1 < length group
    ∧ ¬ (∃ r, Forall (λ item, item_owner item = Some (OwnerNode r)) group).
Proof.
  intros group. rewrite ResolverFacts.labelIssues_of_group. fold group.
  unfold labelIssuesOf. simpl.
  destruct (bool_decide (1 < length group)) eqn:Elen.
  2:{ apply bool_decide_eq_false in Elen. split; [done | by intros [? _]]. }
  apply bool_decide_eq_true in Elen.
  set (firstLabeledNode := List.find _ group).
  assert (∃ final, last group = Some final) as [final Hlast].
  { destruct (last group) eqn:El; [by eexists |].
    apply last_None in El. rewrite El in Elen. simpl in Elen. lia. }
  rewrite Hlast.
  destruct firstLabeledNode as [f |] eqn:Ef.
  - apply find_some in Ef as [Hfin Hf].
    destruct (item_owner f) as [[r | ?] |] eqn:Eo; try done.
    destruct (forallb (sameOwnerAs (Some f)) group) eqn:Eall; simpl.
    + split; [done |]. intros [_ Hdiff]. exfalso. apply Hdiff.
      exists r. apply Forall_forall. intros item Hitem.
      rewrite forallb_forall in Eall.
      specialize (Eall item (proj1 (list_elem_of_In _ _) Hitem)).
      unfold sameOwnerAs in Eall. rewrite Eo in Eall.
      destruct (item_owner item) as [[r' | ?] |]; try done.
      simpl in Eall. apply bool_decide_eq_true in Eall. by subst.
    + split; [| done]. intros _. split; [done |].
      intros [r' Hall].
      assert (forallb (sameOwnerAs (Some f)) group = true); [| congruence].
      apply forallb_forall. intros item Hitem.
      rewrite Forall_forall in Hall.
      pose proof (Hall item (proj2 (list_elem_of_In _ _) Hitem)) as Hi.
      pose proof (Hall f (proj2 (list_elem_of_In _ _) Hfin)) as Hf'.
      unfold sameOwnerAs. rewrite Eo, Hi. rewrite Eo in Hf'.
      injection Hf' as ->. simpl. by apply bool_decide_eq_true.
  - rewrite orb_true_r. split; [| done]. intros _. split; [done |].
    intros [r Hall].
    destruct group as [| g0 group'] eqn:Eg; [simpl in Elen; lia |].
    apply Forall_cons in Hall as [Hg0 _].
    subst firstLabeledNode. simpl in Ef. by rewrite Hg0 in Ef.
Qed.


(** *** Sibling names *)

Lemma loop_child (n : DtcChildNode) (nm : NodeName) (rest : list ASTBase)
    (seen : gset string) :
  DtcChildNode_name n = Some nm →
  checkNodeUniqueNames_loop (ChildNodeAst n :: rest) seen
  = (if bool_decide (NodeName_name nm ∈ seen)
     then [genIssue1 DUPLICATE_NODE_NAME (NodeNameAst nm)] else [])
    ++ checkNodeUniqueNames_loop rest ({[NodeName_toString nm]} ∪ seen).
Proof. intros Hn. simpl. by rewrite Hn. Qed.

Lemma loop_children_silent_iff (children : list ASTBase) (names : list NodeName) :
  Forall2 (λ c nm, ∃ n, c = ChildNodeAst n ∧ DtcChildNode_name n = Some nm)
          children names →
  ∀ seen : gset string,
    checkNodeUniqueNames_loop children seen = []
    ↔ Forall (λ ni, NodeName_name ni ∉ seen) names
      ∧ (∀ before nj mid ni after,
           names = before ++ nj :: mid ++ ni :: after →
           NodeName_name ni ≠ NodeName_toString nj).
Proof.
  induction 1 as [| c nm children names (n & -> & Hn) _ IH]; intros seen.
  - simpl. split; [| done]. intros _. split; [constructor |].
    intros [| ? ?] ? ? ? ? [=].
  - rewrite (loop_child n nm) by done. rewrite app_nil. rewrite IH.
    split.
    + intros (Hhead & Hall & Hpair).
      assert (NodeName_name nm ∉ seen) as Hnm.
      { case_bool_decide; [done | done]. }
      split.
      * constructor; [done |]. eapply Forall_impl; [exact Hall |].
        simpl. intros ni Hni Hin. apply Hni. by apply elem_of_union_r.
      * intros [| b before] nj mid ni after; simpl; intros [= -> Heq].
        -- rewrite Forall_forall in Hall. intros Heqn.
           apply (Hall ni).
           ++ rewrite Heq. apply elem_of_app. right. by left.
           ++ rewrite Heqn. apply elem_of_union_l. by apply elem_of_singleton.
        -- by apply (Hpair before nj mid ni after).
    + intros (Hall & Hpair). apply Forall_cons in Hall as [Hnm Hall].
      split; [by rewrite bool_decide_eq_false_2 |]. split.
      * apply Forall_forall. intros ni Hni [Hin | Hin]%elem_of_union.
        -- apply elem_of_singleton in Hin.
           apply list_elem_of_split in Hni as (mid & after & ->).
           by apply (Hpair [] nm mid ni after).
        -- rewrite Forall_forall in Hall. by apply (Hall ni).
      * intros before nj mid ni after ->.
        by apply (Hpair (nm :: before) nj mid ni after).
Qed.

(** X14. In a block whose children are all named child nodes,
    [checkNodeUniqueNames] is silent if and only if no child has, for
    [name.name], what an earlier sibling has for [name.toString()]: the
    set of seen names is filled with the one and asked for the other. *)
Theorem sibling_names_silent_iff (children : list ASTBase) (names : list NodeName)
    (this : ContextAware) :
  Forall2 (λ c nm, ∃ n, c = ChildNodeAst n ∧ DtcChildNode_name n = Some nm)
          children names →
  checkNodeUniqueNames children this = Normal (tt, this)
  ↔ (∀ before nj mid ni after,
       names = before ++ nj :: mid ++ ni :: after →
       NodeName_name ni ≠ NodeName_toString nj).
Proof.
  intros Hchildren. unfold checkNodeUniqueNames, modify.
  pose proof (loop_children_silent_iff children names Hchildren ∅) as Hloop.
  split.
  - intros [= Hthis]. apply Hloop.
    destruct this as [is0 rt hp nr no]. unfold set_issues in Hthis. simpl in Hthis.
    injection Hthis as Hthis.
    rewrite <- (app_nil_r is0) in Hthis at 2. by apply app_inv_head in Hthis.
  - intros Hpair.
    assert (checkNodeUniqueNames_loop children ∅ = []) as ->.
    { apply Hloop. split; [| done]. apply Forall_forall. intros ? _. apply not_elem_of_empty. }
    destruct this. unfold set_issues. simpl. by rewrite app_nil_r.
Qed.

Lemma sibling_names_silent_iff_witness :
  checkNodeUniqueNames [ChildNodeAst (child_named "a"); ChildNodeAst (child_named "b")] bare
  = Normal (tt, bare).
Proof.
  apply (sibling_names_silent_iff
           [ChildNodeAst (child_named "a"); ChildNodeAst (child_named "b")]
           [mkNodeName "a" "a" "a"; mkNodeName "b" "b" "b"] bare).
  - repeat constructor; by eexists.
  - intros [| b1 [| b2 [| b3 before]]] nj [| m1 [| m2 mid]] ni after; simpl;
      intros [=]; subst; discriminate.
Defined.

(** *** Declarations that leave the tree alone *)

(** X15. A property without a name, or with the empty name, is not
    merged: the instance is left as it was. *)
Theorem unnamed_property_is_skipped (fuel : nat) (element : DtcProperty)
    (runtimeNodeParent : NodeRef) (this : ContextAware) :
  truthy (PropertyName_name <$> DtcProperty_propertyName element) = false →
  Forall (λ c, inert c = true) (DtcProperty_children element) →
  processChild fuel (PropertyAst element) runtimeNodeParent this = Normal (tt, this).
Proof.
  intros Hname Hinert. simpl. unfold processDtcProperty. rewrite Hname. simpl.
  unfold bind at 1. simpl. by apply PropertyFacts.forEach_inert.
Qed.

Lemma unnamed_property_is_skipped_witness :
  processChild 0 (PropertyAst unnamed_property) 0 bare = Normal (tt, bare).
Proof.
  apply (unnamed_property_is_skipped 0 unnamed_property 0 bare).
  - reflexivity.
  - repeat constructor.
Defined.

(** X16. A [/delete-node/] by name whose parent has no parent, that
    is, one at the top level of a file, does nothing: no node is deleted
    and no issue is raised, whether the node exists or not. *)
Theorem top_level_delete_node_is_ignored (fuel : nat) (element : DeleteNode)
    (name : NodeName) (runtimeNodeParent : NodeRef) (this : ContextAware) :
  DeleteNode_nodeNameOrRef element = Some (inl name) →
  DeleteNode_parentNode_parentNode element = false →
  Forall (λ c, inert c = true) (DeleteNode_children element) →
  processChild fuel (DeleteNodeAst element) runtimeNodeParent this = Normal (tt, this).
Proof.
  intros Hname Htop Hinert. simpl. unfold processDeleteNode. rewrite Hname, Htop.
  unfold bind at 1.
  destruct (truthy (Some (NodeName_value name))); simpl;
    by apply PropertyFacts.forEach_inert.
Qed.

Lemma top_level_delete_node_is_ignored_witness :
  processChild 0 (DeleteNodeAst delete_n_at_top) 0 bare = Normal (tt, bare).
Proof.
  apply (top_level_delete_node_is_ignored 0 delete_n_at_top (mkNodeName "n" "n" "n") 0 bare).
  - reflexivity.
  - reflexivity.
  - repeat constructor.
Defined.

(** X17. A [/delete-property/] of a name that the node does not hold
    adds the one issue [PROPERTY_DOES_NOT_EXIST] on the name and leaves
    the tree as it was; of a name that the node holds, it adds no
    issue. *)
Theorem delete_property_reports_missing (fuel : nat) (element : DeleteProperty)
    (name : PropertyName) (runtimeNodeParent : NodeRef) (this : ContextAware) :
  DeleteProperty_propertyName element = Some name →
  PropertyName_name name ≠ "" →
  Forall (λ c, inert c = true) (DeleteProperty_children element) →
  (hasProperty (heap this) runtimeNodeParent (PropertyName_name name) = false →
   processChild fuel (DeletePropertyAst element) runtimeNodeParent this
   = Normal (tt, {| _issues := _issues this
                      ++ [genIssue [PROPERTY_DOES_NOT_EXIST] (Some (PropertyNameAst name))
                            Error [] None []];
                    rootNode := rootNode this; heap := heap this;
                    nextRef := nextRef this; nextOid := nextOid this |}))
  ∧ (hasProperty (heap this) runtimeNodeParent (PropertyName_name name) = true →
     ∃ this',
       processChild fuel (DeletePropertyAst element) runtimeNodeParent this
       = Normal (tt, this')
       ∧ _issues this' = _issues this).
Proof.
  intros Hname Hne Hinert. simpl. unfold processDeleteProperty. rewrite Hname.
  unfold truthy. rewrite bool_decide_eq_false_2 by done. simpl.
  split; intros Hhas.
  - unfold bind at 1. unfold bind at 1. unfold get. simpl. rewrite Hhas. simpl.
    by rewrite PropertyFacts.forEach_inert.
  - eexists. unfold bind at 1. unfold bind at 1. unfold get. simpl. rewrite Hhas. simpl.
    rewrite PropertyFacts.forEach_inert by done. split; reflexivity.
Qed.

Lemma delete_property_reports_missing_witness :
  processChild 0 (DeletePropertyAst delete_x) 0 bare
  = Normal (tt, {| _issues := [genIssue [PROPERTY_DOES_NOT_EXIST]
                                 (Some (PropertyNameAst (mkPropertyName "x")))
                                 Error [] None []];
                   rootNode := rootNode bare; heap := heap bare;
                   nextRef := nextRef bare; nextOid := nextOid bare |}).
Proof.
  apply (proj1 (delete_property_reports_missing 0 delete_x (mkPropertyName "x") 0 bare
                  eq_refl ltac:(discriminate) ltac:(repeat constructor))).
  reflexivity.
Defined.



End ResolverMore.

(** ** What the fold of the declarations keeps *)
Module BuilderInvariant.
Import Resolver TreeInputs MoreTreeInputs.

(** The later instance has the root of the earlier one, its issues
    followed by more, and counters that are not smaller. *)
Local Notation extends this this' :=
  (rootNode this' = rootNode this
   ∧ (∃ more, _issues this' = _issues this ++ more)
   ∧ Nat.le (nextRef this) (nextRef this')
   ∧ Nat.le (nextOid this) (nextOid this')).

Local Notation keeps A m :=
  (∀ (this : ContextAware) (a : A) (this' : ContextAware),
     m this = Normal (a, this') → extends this this').

Lemma extends_refl (this : ContextAware) : extends this this.
Proof. split; [done |]. split; [exists []; by rewrite app_nil_r | done]. Qed.

Lemma extends_trans (s1 s2 s3 : ContextAware) :
  extends s1 s2 → extends s2 s3 → extends s1 s3.
Proof.
  intros (Hr1 & [m1 Hi1] & Hn1 & Ho1) (Hr2 & [m2 Hi2] & Hn2 & Ho2).
  split; [congruence |]. split.
  - exists (m1 ++ m2). by rewrite Hi2, Hi1, app_assoc.
  - split; lia.
Qed.

Lemma keeps_ret {A} (a : A) : keeps A (ret a).
Proof. intros this a' this' [= _ <-]. apply extends_refl. Qed.

Lemma keeps_bind {A B} (m : M A) (k : A → M B) :
  keeps A m → (∀ a, keeps B (k a)) → keeps B (bind m k).
Proof.
  intros Hm Hk this b this'. unfold bind.
  destruct (m this) as [[a s1] | |] eqn:Em; simpl; try done.
  intros Hk'. eapply extends_trans; [by eapply Hm | by eapply Hk].
Qed.

Lemma keeps_get {A} (f : ContextAware → A) : keeps A (get f).
Proof. intros this a this' [= _ <-]. apply extends_refl. Qed.

Lemma keeps_liftC {A} (f : ContextAware → Completion A) : keeps A (liftC f).
Proof.
  intros this a this'. unfold liftC. destruct (f this); simpl; try done.
  intros [= _ <-]. apply extends_refl.
Qed.

Lemma keeps_set_heap (f : gmap NodeRef Node → gmap NodeRef Node) :
  keeps unit (modify (set_heap f)).
Proof. intros this a this' [= _ <-]. simpl. apply extends_refl. Qed.

Lemma keeps_append (more : list (Issue ContextIssues)) :
  keeps unit (modify (set_issues (λ old, old ++ more))).
Proof.
  intros this a this' [= _ <-]. simpl. split; [done |]. split; [by exists more | done].
Qed.

Lemma keeps_newNode (name : string) (parent : option NodeRef) :
  keeps NodeRef (newNode name parent).
Proof.
  intros this a this' [= _ <-]. simpl. split; [done |].
  split; [exists []; by rewrite app_nil_r |]. split; lia.
Qed.

Lemma keeps_newProperty (element : DtcProperty) : keeps Property (newProperty element).
Proof.
  intros this a this' [= _ <-]. simpl. split; [done |].
  split; [exists []; by rewrite app_nil_r |]. split; lia.
Qed.

Lemma keeps_forEach {A} (f : A → M unit) (l : list A) :
  Forall (λ a, keeps unit (f a)) l → keeps unit (forEach f l).
Proof.
  induction 1 as [| a l Ha _ IH]; simpl; [apply keeps_ret |].
  apply keeps_bind; [done | by intros _].
Qed.

Lemma keeps_when (b : bool) (m : M unit) : keeps unit m → keeps unit (when b m).
Proof. intros Hm. destruct b; [done | apply keeps_ret]. Qed.

Ltac keep_step :=
  first
    [ apply keeps_ret | apply keeps_get | apply keeps_liftC | apply keeps_set_heap
    | apply keeps_append | apply keeps_newNode | apply keeps_newProperty
    | apply keeps_when
    | apply keeps_bind; [| intros ?]
    | match goal with
      | |- ∀ _ _ _, (match ?x with _ => _ end) _ = _ → _ => destruct x
      | |- ∀ _ _ _, (if ?x then _ else _) _ = _ → _ => destruct x
      end ].

(** One level of [processChild], given that the calls on the children
    keep the instance. *)
Lemma keeps_body (fuel : nat) (processChild : ASTBase → NodeRef → M unit)
    (element : ASTBase) (runtimeNodeParent : NodeRef) :
  Forall (λ c, ∀ r, keeps unit (processChild c r)) (ASTBase_children element) →
  keeps unit (processChild_body fuel processChild element runtimeNodeParent).
Proof.
  intros Hchildren.
  assert (∀ r, keeps unit (forEach (λ child, processChild child r)
                             (ASTBase_children element))) as Hfixed.
  { intros r. apply keeps_forEach. eapply Forall_impl; [exact Hchildren |].
    simpl. intros c Hc. apply Hc. }
  destruct element as [n | n | n | p | d | d | | | | | | | | |];
    unfold processChild_body; try apply keeps_ret.
  - (* DtcRootNode *)
    unfold processDtcBaseNode, checkNodeUniqueNames, processDtcRootNode.
    repeat keep_step.
    apply keeps_forEach. eapply Forall_impl; [exact Hchildren |].
    simpl. intros c Hc. repeat keep_step. apply Hc.
  - (* DtcChildNode *)
    unfold processDtcBaseNode, checkNodeUniqueNames, processDtcChildNode,
      resolvePathM, rootGetChild.
    repeat keep_step. apply Hfixed.
  - (* DtcRefNode *)
    unfold processDtcBaseNode, checkNodeUniqueNames, processDtcRefNode,
      resolvePathM, rootGetChild, pushIssue.
    repeat keep_step.
    apply keeps_forEach. eapply Forall_impl; [exact Hchildren |].
    simpl. intros c Hc. repeat keep_step. apply Hc.
  - (* DtcProperty *)
    unfold processDtcProperty. repeat keep_step. apply (Hfixed runtimeNodeParent).
  - (* DeleteNode *)
    unfold processDeleteNode, resolvePathM, rootGetChild, pushIssue.
    repeat keep_step. apply (Hfixed runtimeNodeParent).
  - (* DeleteProperty *)
    unfold processDeleteProperty, pushIssue.
    repeat keep_step. apply (Hfixed runtimeNodeParent).
Qed.


Lemma processChild_unfold (fuel : nat) (element : ASTBase) (runtimeNodeParent : NodeRef) :
  processChild fuel element runtimeNodeParent
  = processChild_body fuel (processChild fuel) element runtimeNodeParent.
Proof. by destruct element. Qed.

Lemma allDescendants_children (element : ASTBase) :
  allDescendants element
  = flat_map (λ c, c :: allDescendants c) (ASTBase_children element).
Proof.
  destruct element as [[ch] | [? ? ? ch] | [? ? ? ch] | [? ? ? ch] | [? ? ch] | [? ch]
                       | | | | | | | | |]; simpl; try done.
  all: induction ch as [| c ch IH]; simpl; [done |]; by rewrite IH.
Qed.

Lemma child_is_smaller (element c : ASTBase) :
  c ∈ ASTBase_children element →
  length (allDescendants c) < length (allDescendants element).
Proof.
  rewrite (allDescendants_children element).
  induction (ASTBase_children element) as [| c' l IH]; simpl.
  - by intros ?%elem_of_nil.
  - intros [-> | Hin]%elem_of_cons; rewrite length_app.
    + lia.
    + specialize (IH Hin). lia.
Qed.

Lemma keeps_processChild (fuel : nat) (element : ASTBase) :
  ∀ runtimeNodeParent, keeps unit (processChild fuel element runtimeNodeParent).
Proof.
  remember (length (allDescendants element)) as size eqn:Hsize.
  revert element Hsize.
  induction size as [size IH] using lt_wf_ind. intros element -> runtimeNodeParent.
  rewrite processChild_unfold. apply keeps_body.
  apply Forall_forall. intros c Hc r.
  by apply (IH (length (allDescendants c)) (child_is_smaller element c Hc) c).
Qed.

Lemma keeps_process (fuel : nat) (astMap : gmap string CachedParse)
    (fileMap : list string) :
  keeps unit (process fuel astMap fileMap).
Proof.
  unfold process. destruct (existsb _ _); [apply keeps_ret |].
  apply keeps_forEach, Forall_forall. intros [file [tree |]] _; [| apply keeps_ret].
  simpl. unfold processRoot. apply keeps_forEach, Forall_forall. intros c _.
  apply keeps_bind; [apply keeps_get |]. intros root. apply keeps_processChild.
Qed.

(** X19. Merging declarations only ever adds to an instance: after
    [processChild], and after [process] as a whole, the root node is the
    same object, the issues recorded before are still there, in their
    order, at the head of the issues, and the counters for new nodes and
    new properties have not gone back, so that no identity is handed out
    twice. *)
Theorem merging_only_adds (fuel : nat) (this this' : ContextAware) :
  (∀ element runtimeNodeParent,
     processChild fuel element runtimeNodeParent this = Normal (tt, this') →
     rootNode this' = rootNode this
     ∧ (∃ more, _issues this' = _issues this ++ more)
     ∧ Nat.le (nextRef this) (nextRef this')
     ∧ Nat.le (nextOid this) (nextOid this'))
  ∧ (∀ astMap fileMap,
       process fuel astMap fileMap this = Normal (tt, this') →
       rootNode this' = rootNode this
       ∧ (∃ more, _issues this' = _issues this ++ more)
       ∧ Nat.le (nextRef this) (nextRef this')
       ∧ Nat.le (nextOid this) (nextOid this')).
Proof.
  split.
  - intros element runtimeNodeParent Hrun.
    exact (keeps_processChild fuel element runtimeNodeParent this tt this' Hrun).
  - intros astMap fileMap Hrun.
    exact (keeps_process fuel astMap fileMap this tt this' Hrun).
Qed.

Lemma merging_only_adds_witness :
  ∃ this',
    process 3 cache ["a.dts"; "b.dts"] bare = Normal (tt, this')
    ∧ rootNode this' = rootNode bare
    ∧ (∃ more, _issues this' = _issues bare ++ more)
    ∧ Nat.le (nextRef bare) (nextRef this')
    ∧ Nat.le (nextOid bare) (nextOid this').
Proof.
  eexists. split; [vm_compute; reflexivity |].
  apply (proj2 (merging_only_adds 3 bare _) cache ["a.dts"; "b.dts"]).
  vm_compute. reflexivity.
Defined.


(** *** Files in their order *)

Lemma forEach_app {A} (f : A → M unit) (l1 l2 : list A) (this : ContextAware) :
  forEach f (l1 ++ l2) this = bind (forEach f l1) (λ _, forEach f l2) this.
Proof.
  revert this. induction l1 as [| a l1 IH]; intros this; simpl; [done |].
  unfold bind. destruct (f a this) as [[u s1] | |]; simpl; [| done | done].
  rewrite IH. reflexivity.
Qed.

Lemma all_cached (astMap : gmap string CachedParse) (fileMap : list string) :
  Forall (λ file, is_Some (astMap !! file)) fileMap →
  existsb (λ tree : string * option DtcBaseNode, negb (bool_decide (is_Some tree.2)))
    (map (λ file, (file, parser_rootDocument <$> astMap !! file)) fileMap) = false.
Proof.
  induction 1 as [| file fileMap [parse Hfile] _ IH]; simpl; [done |].
  rewrite Hfile. simpl. exact IH.
Qed.

(** X20. When every file is cached, merging a list of files is
    merging its first part and then, on the instance that results, the
    rest: the files are folded into the one tree in the order of the
    [fileMap]. *)
Theorem process_in_file_order (fuel : nat) (astMap : gmap string CachedParse)
    (first rest : list string) (this : ContextAware) :
  Forall (λ file, is_Some (astMap !! file)) (first ++ rest) →
  process fuel astMap (first ++ rest) this
  = bind (process fuel astMap first) (λ _, process fuel astMap rest) this.
Proof.
  intros Hall. pose proof Hall as [Hfirst Hrest]%Forall_app.
  unfold process.
  rewrite (all_cached astMap _ Hall), (all_cached astMap _ Hfirst),
    (all_cached astMap _ Hrest).
  rewrite map_app. apply forEach_app.
Qed.

Lemma process_in_file_order_witness :
  process 3 cache (["a.dts"] ++ ["b.dts"]) bare
  = bind (process 3 cache ["a.dts"]) (λ _, process 3 cache ["b.dts"]) bare.
Proof.
  apply (process_in_file_order 3 cache ["a.dts"] ["b.dts"] bare).
  repeat constructor; by eexists.
Defined.

End BuilderInvariant.

(** ** The label pool of the merged tree *)
Module LabelPoolFacts.
Import Resolver TreeInputs.

(** *** The issues of the merge name no label

    Every issue that [process] records is built with the defaults of
    [genIssue]: it has no template string.  The issues of the label pool
    are the only ones that name a text. *)
Local Notation unnamed this :=
  (Forall (λ d : Issue ContextIssues, templateStrings d = []) (_issues this)).

Local Notation quiet A m :=
  (∀ (this : ContextAware) (a : A) (this' : ContextAware),
     m this = Normal (a, this') → unnamed this → unnamed this').



















End LabelPoolFacts.

(** ** [interrupts-extended], beyond the claims *)
Module InterruptsExtendedMore.
Import Types InterruptsExtended InterruptInputs MoreInterruptInputs.

Section Check.

Variable Property_parent : Property → Node.
Variable Node_root : Node → Node.
Variable Node_path : Node → list string.
Variable nodeNameOrLabelRef : Node → list ASTBase.
Variable flatNumberValues : option PropertyValues → option (list ASTBase).
Variable resolvePhandleNode : option ASTBase → Node → option Node.
Variable getInterruptInfo : Node → InterruptInfo.

Local Notation walk := (walk Node_path nodeNameOrLabelRef resolvePhandleNode getInterruptInfo).
Local Notation additionalTypeCheck :=
  (additionalTypeCheck Property_parent Node_root Node_path nodeNameOrLabelRef
     flatNumberValues resolvePhandleNode getInterruptInfo).

Local Notation tuple_error d :=
  (issues d = [INTERRUPTS_PARENT_NODE_NOT_FOUND]
   ∨ issues d = [PROPERTY_REQUIRES_OTHER_PROPERTY_IN_NODE]
   ∨ issues d = [INTERRUPTS_VALUE_CELL_MISS_MATCH]).

Lemma walk_adds_at_most_one (property : Property) (root : Node) (values : list ASTBase)
    (fuel : nat) :
  ∀ (i : Z) (before result : list (Issue StandardTypeIssue)),
    walk fuel property root values i before = Normal result →
    result = before
    ∨ ∃ d, result = before ++ [d] ∧ severity d = Error ∧ tuple_error d.
Proof.
  induction fuel as [| fuel IH]; intros i before result; [done |].
  simpl. case_bool_decide; [| intros [= <-]; by left].
  destruct (resolvePhandleNode _ root) as [parent |].
  2:{ intros [= <-]. right. eexists. split; [done |]. split; [done | by left]. }
  destruct (cellsProperty (getInterruptInfo parent)) as [cells |].
  2:{ intros [= <-]. right. eexists. split; [done |].
      split; [done | right; by left]. }
  destruct (value (getInterruptInfo parent)) as [v |]; [| intros [= <-]; by left].
  case_bool_decide; [| apply IH].
  intros [= <-]. right. eexists. split; [done |]. split; [done | right; by right].
Qed.

(** X21. The check stops at the first tuple that is wrong: what it
    returns is either nothing at all, or the [IGNORED] warnings,
    followed by at most one diagnostic, which is an error on a tuple. *)
Theorem at_most_one_tuple_error (fuel : nat) (property : Property)
    (result : list (Issue StandardTypeIssue)) :
  let warnings :=
    ignoredWarning property (getProperty (Property_parent property) "interrupts")
    ++ ignoredWarning property (getProperty (Property_parent property) "interrupt-parent")
  in
  additionalTypeCheck fuel property = Normal result →
  result = []
  ∨ result = warnings
  ∨ ∃ d, result = warnings ++ [d] ∧ severity d = Error ∧ tuple_error d.
Proof.
  intros warnings. unfold InterruptsExtended.additionalTypeCheck.
  destruct (flatNumberValues _) as [[| v0 values] |];
    [intros [= <-]; by left | | intros [= <-]; by left].
  intros Hwalk. right. by apply walk_adds_at_most_one in Hwalk.
Qed.

(** X22. The loop has no guard against a cell count of [-1]: when the
    first phandle resolves to a parent whose [#interrupt-cells] value is
    [-1], the index is advanced by nothing and the check never
    returns. *)
Theorem cell_count_minus_one_never_returns (property : Property) (first : ASTBase)
    (values : list ASTBase) (parent : Node) (cells : Property) :
  flatNumberValues (DtcProperty_values (ast property)) = Some (first :: values) →
  resolvePhandleNode (Some first) (Node_root (Property_parent property)) = Some parent →
  cellsProperty (getInterruptInfo parent) = Some cells →
  value (getInterruptInfo parent) = Some (-1)%Z →
  ∀ fuel, additionalTypeCheck fuel property = OutOfFuel.
Proof.
  intros Hflat Hres Hcells Hvalue fuel.
  unfold InterruptsExtended.additionalTypeCheck. rewrite Hflat.
  generalize (ignoredWarning property (getProperty (Property_parent property) "interrupts")
              ++ ignoredWarning property
                   (getProperty (Property_parent property) "interrupt-parent")).
  intros before. induction fuel as [| fuel IH]; [done |].
  cbn [InterruptsExtended.walk].
  rewrite bool_decide_eq_true_2 by (simpl; lia).
  unfold at_index. simpl (_ !! _). rewrite bool_decide_eq_true_2 by lia.
  simpl (_ !! _). rewrite Hres, Hcells, Hvalue.
  rewrite bool_decide_eq_false_2.
  2:{ rewrite length_cons, Nat2Z.inj_succ.
      pose proof (Nat2Z.is_nonneg (length values)). lia. }
  exact IH.
Qed.

Lemma walk_returns (property : Property) (root : Node) (values : list ASTBase) :
  (∀ parent v, value (getInterruptInfo parent) = Some v → (0 ≤ v)%Z) →
  ∀ (fuel : nat) (i : Z) (before : list (Issue StandardTypeIssue)),
    (Z.of_nat (length values) - i ≤ Z.of_nat fuel)%Z →
    ∃ result, walk (S fuel) property root values i before = Normal result.
Proof.
  intros Hcount. induction fuel as [| fuel IH]; intros i before Hfuel.
  - cbn [InterruptsExtended.walk].
    rewrite bool_decide_eq_false_2 by lia. by eexists.
  - cbn [InterruptsExtended.walk]. cbn [InterruptsExtended.walk] in IH.
    case_bool_decide as Hi; [| by eexists].
    destruct (resolvePhandleNode _ root) as [parent |]; [| by eexists].
    destruct (cellsProperty (getInterruptInfo parent)) as [cells |]; [| by eexists].
    destruct (value (getInterruptInfo parent)) as [v |] eqn:Ev; [| by eexists].
    case_bool_decide; [by eexists |].
    apply IH. specialize (Hcount parent v Ev). lia.
Qed.

(** X23. When no parent has a negative cell count, the check returns:
    every turn of the loop advances the index, and one turn more than
    there are values is enough. *)
Theorem check_returns_on_natural_counts (fuel : nat) (property : Property)
    (values : list ASTBase) :
  (∀ parent v, value (getInterruptInfo parent) = Some v → (0 ≤ v)%Z) →
  flatNumberValues (DtcProperty_values (ast property)) = Some values →
  length values < fuel →
  ∃ result, additionalTypeCheck fuel property = Normal result.
Proof.
  intros Hcount Hflat Hfuel.
  unfold InterruptsExtended.additionalTypeCheck. rewrite Hflat.
  destruct values as [| v0 values]; [by eexists |].
  destruct fuel as [| fuel]; [lia |].
  apply walk_returns; [done |]. lia.
Qed.

End Check.

Local Notation check info :=
  (additionalTypeCheck (λ _, device) (λ n, n) (λ _, ["/"; "soc"]) (λ _, [])
     flatten resolve info).

Lemma at_most_one_tuple_error_witness :
  let result :=
    [genIssue [INTERRUPTS_PARENT_NODE_NOT_FOUND] (Some (phandle "gone")) Error [] None []] in
  result = []
  ∨ result = [] ++ []
  ∨ ∃ d, result = ([] ++ []) ++ [d] ∧ severity d = Error
         ∧ (issues d = [INTERRUPTS_PARENT_NODE_NOT_FOUND]
            ∨ issues d = [PROPERTY_REQUIRES_OTHER_PROPERTY_IN_NODE]
            ∨ issues d = [INTERRUPTS_VALUE_CELL_MISS_MATCH]).
Proof.
  apply (at_most_one_tuple_error (λ _, device) (λ n, n) (λ _, ["/"; "soc"]) (λ _, [])
           flatten resolve info 2 (interrupts_of [gone_ref; NumberValue 5])).
  reflexivity.
Defined.

Lemma cell_count_minus_one_never_returns_witness :
  check negative_info 50 (interrupts_of [pic_ref; NumberValue 1]) = OutOfFuel.
Proof.
  apply (cell_count_minus_one_never_returns (λ _, device) (λ n, n) (λ _, ["/"; "soc"])
           (λ _, []) flatten resolve negative_info
           (interrupts_of [pic_ref; NumberValue 1]) (phandle "pic") [cell 1]
           pic cells_property); reflexivity.
Defined.

Lemma check_returns_on_natural_counts_witness :
  ∃ result, check info 3 (interrupts_of [pic_ref; NumberValue 1]) = Normal result.
Proof.
  apply (check_returns_on_natural_counts (λ _, device) (λ n, n) (λ _, ["/"; "soc"])
           (λ _, []) flatten resolve info 3 (interrupts_of [pic_ref; NumberValue 1])
           [phandle "pic"; cell 1]).
  - intros parent v. unfold info. destruct (getProperty parent _); simpl;
      intros [= <-]. lia.
  - reflexivity.
  - simpl. lia.
Defined.

End InterruptsExtendedMore.

(** ** The class [DeleteNode] *)
Module DeleteNodeFacts.
Import DeleteNodeClass.

(** X24. The name or reference of a [DeleteNode] is set at most once:
    on a new object the first assignment of a name succeeds and reading
    gives the name back; every later assignment throws.  An assignment
    of [null] does not count: the next assignment still succeeds. *)
Theorem nodeNameOrRef_is_set_once
    (addChild : option ASTBase → list ASTBase → list ASTBase)
    (keyword : ASTBase) (v : NodeName + LabelRef) :
  (∃ this,
     set_nodeNameOrRef addChild (Some v) (DeleteNode_new addChild keyword) = inr this
     ∧ get_nodeNameOrRef this = Some v
     ∧ ∀ w, set_nodeNameOrRef addChild w this = inl "Only on property name is allowed")
  ∧ (∃ this this',
       set_nodeNameOrRef addChild None (DeleteNode_new addChild keyword) = inr this
       ∧ set_nodeNameOrRef addChild (Some v) this = inr this'
       ∧ get_nodeNameOrRef this' = Some v).
Proof.
  split.
  - eexists. split; [reflexivity |]. split; [reflexivity | done].
  - eexists _, _. split; [reflexivity |]. split; reflexivity.
Qed.

End DeleteNodeFacts.
